(** * Jarvis: the Safari download renamer (main.py)

    A shallow embedding of [sanitize_filename], [wait_for_download_complete]
    and [DownloadHandler.process_event], with the properties of the naming
    policy, of the stability resolver and of the relocation step; and of
    [normalize_screenshot_path] and [extract_largest_text] of the screenshot
    renamer (screenshot.py).

    Python values are modelled as follows.
    - A [str] is a sequence of Unicode code points, so a character is its
      code point ([N]) and a string a list of them; [len] is [length] and the
      slice [s[:n]] is [firstn n s].
    - A [pathlib.Path] is the string [str(path)] gives, and [Path(s)] is [s]:
      the paths of the script are in normal form.
    - [time.time()] gives seconds; the clock is a rational number of seconds
      and only [time.sleep] lets it advance.
    - The file system, the clock, Safari and [shutil.move] are the
      environment: an oracle the code queries, see [Env].  The lines printed
      and the calls of [shutil.move] are recorded in the state of the run. *)

From Stdlib Require Import String Ascii List Bool Arith NArith ZArith QArith Lia Lqa.
Import ListNotations.

Set Implicit Arguments.

(** ** Python strings *)

Definition char := N.
Definition str := list char.

(** A string literal of the source, as code points. *)
Definition lit (s : string) : str := map N_of_ascii (list_ascii_of_string s).

Definition str_eqb (a b : str) : bool :=
  if list_eq_dec N.eq_dec a b then true else false.

(** ** The naming policy *)

Module Naming.

(** Membership in a character class [[...]] of a regular expression. *)
Definition in_class (cls : str) (c : char) : bool := existsb (N.eqb c) cls.

(** [re.sub(r'[cls]+', repl, s)]: the matcher scans [s] from the left; where a
    character of the class starts a match the greedy [+] takes the whole run of
    class characters that follows, the run is replaced by [repl] once, and the
    scan goes on after the run.  [in_match] tells that the scan is inside a run
    whose replacement is already written. *)
Fixpoint re_sub_plus (cls repl : str) (in_match : bool) (s : str) : str :=
  match s with
  | [] => []
  | c :: t =>
      if in_class cls c
      then (if in_match then [] else repl) ++ re_sub_plus cls repl true t
      else c :: re_sub_plus cls repl false t
  end.

Definition re_sub (cls repl s : str) : str := re_sub_plus cls repl false s.

(** The class of the pattern of [sanitize_filename]: the nine characters
    less-than, greater-than, colon, double quote (code point 34), slash,
    backslash, vertical bar, question mark and asterisk. *)
Definition reserved_chars : str := lit "<>:" ++ [34%N] ++ lit "/\|?*".

Definition reserved (c : char) : bool := in_class reserved_chars c.

Definition underscore : char := 95%N.

Definition MAX_LEN : nat := 200.

(** [sanitize_filename(url)]: the fallback token when [not url] (the empty
    string), else the substitution of the reserved class by one underscore per
    match, cut by the slice [filename[:200]]. *)
Definition sanitize_filename (url : str) : str :=
  match url with
  | [] => lit "unknown_source"
  | _ => let filename := re_sub reserved_chars (lit "_") url in
         firstn MAX_LEN filename
  end.

(** The rest of a string after its leading run of class characters. *)
Fixpoint skip_class (cls : str) (s : str) : str :=
  match s with
  | [] => []
  | c :: t => if in_class cls c then skip_class cls t else s
  end.

(** The state of the scan after [u]: inside a run exactly when [u] ends with
    a class character ([b] is the state before [u]). *)
Fixpoint scan_state (cls : str) (b : bool) (u : str) : bool :=
  match u with
  | [] => b
  | c :: t => scan_state cls (in_class cls c) t
  end.

Definition starts_reserved (s : str) : bool :=
  match s with
  | c :: _ => reserved c
  | [] => false
  end.

Definition ends_reserved (s : str) : bool := starts_reserved (rev s).

(** No two neighbours of [s] are both reserved. *)
Fixpoint no_adjacent_reserved (s : str) : bool :=
  match s with
  | [] => true
  | c :: t =>
      match t with
      | [] => true
      | d :: _ => negb (reserved c && reserved d) && no_adjacent_reserved t
      end
  end.

(** Replacing every reserved character by its own underscore: what a
    substitution without the [+] would do. *)
Definition replace_each (s : str) : str :=
  map (fun c => if reserved c then underscore else c) s.

End Naming.

Import Naming.

(** ** Paths, the environment and the state of a run *)

Module Os.

Definition Path := str.

Definition slash : char := 47%N.
Definition dot : char := 46%N.

(** [s.rfind(c)]: the index of the last [c] of [s], [None] for Python's -1. *)
Fixpoint rfind (c : char) (s : str) : option nat :=
  match s with
  | [] => None
  | x :: t =>
      match rfind c t with
      | Some i => Some (S i)
      | None => if N.eqb x c then Some O else None
      end
  end.

(** [path.name]: the last component, what follows the last slash. *)
Definition name (p : Path) : str :=
  match rfind slash p with
  | Some i => skipn (S i) p
  | None => p
  end.

(** [path.suffix], as pathlib computes it: with [i = name.rfind('.')], the
    slice [name[i:]] when [0 < i < len(name) - 1], the empty string otherwise. *)
Definition suffix (p : Path) : str :=
  let n := name p in
  match rfind dot n with
  | Some i => if (0 <? i)%nat && (i <? length n - 1)%nat then skipn i n else []
  | None => []
  end.

(** [dir / child] for a child without a slash. *)
Definition joinpath (dir : Path) (child : str) : Path := dir ++ [slash] ++ child.

(** What [shutil.move] may raise: an instance of [Exception] ([OSError],
    [shutil.Error], ...) or one of the classes outside it
    ([KeyboardInterrupt], [SystemExit]); each with the text [str(e)]. *)
Inductive Raised :=
| Exc (message : str)
| BaseExc (message : str).

(** The world the script runs in.  Each oracle is indexed by the instant of
    the call. *)
Record Env := {
  exists_at : Q -> Path -> bool;      (* [path.exists()] *)
  wake : Q -> Q -> Q;                 (* [time.sleep(d)] called at [t] returns at [wake t d] *)
  osascript_stdout : Q -> str;        (* [result.stdout] of the osascript run *)
  shutil_move : Q -> Path -> Path -> option Raised;  (* [None]: the move is done *)
  home : Path                         (* [Path.home()] *)
}.

(** The state a run threads: the clock, the lines printed (oldest first) and
    the calls of [shutil.move] made (oldest first). *)
Record State := {
  now : Q;
  stdout : list str;
  moves : list (Path * Path)
}.

Definition print (line : str) (st : State) : State :=
  {| now := now st; stdout := stdout st ++ [line]; moves := moves st |}.

Definition sleep (env : Env) (d : Q) (st : State) : State :=
  {| now := wake env (now st) d; stdout := stdout st; moves := moves st |}.

Definition record_move (src dst : Path) (st : State) : State :=
  {| now := now st; stdout := stdout st; moves := moves st ++ [(src, dst)] |}.

Definition Qltb (x y : Q) : bool := negb (Qle_bool y x).

(** [s.strip()]: the white space of [str.isspace]. *)
Definition isspace (c : char) : bool :=
  ((9 <=? c) && (c <=? 13) || (28 <=? c) && (c <=? 32)
   || (c =? 133) || (c =? 160) || (c =? 5760)
   || (8192 <=? c) && (c <=? 8202)
   || (c =? 8232) || (c =? 8233) || (c =? 8239) || (c =? 8287) || (c =? 12288))%N.

Fixpoint lstrip (s : str) : str :=
  match s with
  | [] => []
  | c :: t => if isspace c then lstrip t else s
  end.

Definition strip (s : str) : str := rev (lstrip (rev (lstrip s))).

(** [get_safari_url()]: the output of the AppleScript, stripped. *)
Definition get_safari_url (env : Env) (t : Q) : str := strip (osascript_stdout env t).

End Os.

Import Os.

(** ** The stability resolver *)

Module Resolver.

Definition marker : str := lit ".download".

(** The lines [wait_for_download_complete] prints; the pictographs are the
    code points U+23F3, U+2705 and U+26A0 U+FE0F. *)
Definition msg_waiting (n : str) : str :=
  [9203%N] ++ lit " Waiting for " ++ n ++ lit " to finish downloading...".
Definition msg_complete (n : str) : str :=
  [9989%N] ++ lit " Download complete: " ++ n.
Definition msg_timed_out (n : str) : str :=
  [9888%N; 65039%N] ++ lit " Timed out waiting for " ++ n ++ lit " to finish".

(** [Path(str(path)[:-9])]: the path without its last nine characters. *)
Definition final_path (path : Path) : Path := firstn (length path - 9) path.

(** The test of one round of the loop: [not path.exists() and final.exists()]. *)
Definition download_done (env : Env) (t : Q) (path final : Path) : bool :=
  negb (exists_at env t path) && exists_at env t final.

(** The [while] loop; [fuel] bounds the number of rounds, [None] is a loop
    that has not ended within them. *)
Fixpoint poll (fuel : nat) (env : Env) (path final : Path)
    (start_time : Q) (timeout : Z) (st : State) : option (Path * State) :=
  match fuel with
  | O => None
  | S fuel' =>
      if Qltb (now st - start_time) (inject_Z timeout) then
        if download_done env (now st) path final then
          Some (final, print (msg_complete (name final)) st)
        else
          poll fuel' env path final start_time timeout (sleep env 1 st)
      else
        Some (path, print (msg_timed_out (name path)) st)
  end.

Definition wait_for_download_complete (fuel : nat) (env : Env) (path : Path)
    (timeout : Z) (st : State) : option (Path * State) :=
  if negb (str_eqb (suffix path) marker) then Some (path, st)
  else
    let st := print (msg_waiting (name path)) st in
    let start_time := now st in
    let final := final_path path in
    poll fuel env path final start_time timeout st.

(** The instant of the round number [k] of a loop entered at [t]. *)
Fixpoint poll_time (env : Env) (t : Q) (k : nat) : Q :=
  match k with
  | O => t
  | S k' => wake env (poll_time env t k') 1
  end.

(** [time.sleep(d)] suspends the run for at least [d] seconds. *)
Definition sleeps_enough (env : Env) : Prop :=
  forall t d : Q, t + d <= wake env t d.

End Resolver.

Import Resolver.

(** ** The event handler *)

Module Handler.

Definition WAIT_TIME : Q := 2.
Definition DEFAULT_TIMEOUT : Z := 60.

Definition DOWNLOADS (env : Env) : Path := joinpath (home env) (lit "Downloads").
Definition DEST_DIR (env : Env) : Path := joinpath (DOWNLOADS env) (lit "safari_renamed").

(** The lines [process_event] prints; the pictographs are U+1F4E5, U+2705 and
    U+26A0 U+FE0F. *)
Definition msg_detected (n : str) : str :=
  [128229%N] ++ lit " New or updated file detected: " ++ n.
Definition msg_renamed (n : str) : str :=
  [9989%N] ++ lit " Renamed & moved: " ++ n.
Definition msg_could_not_rename (n e : str) : str :=
  [9888%N; 65039%N] ++ lit " Could not rename " ++ n ++ lit ": " ++ e.

(** How a call ends: it returns, or an exception leaves it. *)
Inductive Outcome :=
| Returned
| Propagated (r : Raised).

(** The name of the destination: [f"{safe_name}{path.suffix}"]. *)
Definition new_name (safari_url : str) (path : Path) : str :=
  sanitize_filename safari_url ++ suffix path.

Definition process_event (fuel : nat) (env : Env) (path : Path) (st : State)
  : option (Outcome * State) :=
  if negb (exists_at env (now st) path) then Some (Returned, st)
  else
    let st := print (msg_detected (name path)) st in
    match wait_for_download_complete fuel env path DEFAULT_TIMEOUT st with
    | None => None
    | Some (path, st) =>
        let st := sleep env WAIT_TIME st in
        let safari_url := get_safari_url env (now st) in
        let new_path := joinpath (DEST_DIR env) (new_name safari_url path) in
        let st := record_move path new_path st in
        match shutil_move env (now st) path new_path with
        | None => Some (Returned, print (msg_renamed (name new_path)) st)
        | Some (Exc e) =>
            Some (Returned, print (msg_could_not_rename (name path) e) st)
        | Some (BaseExc e) => Some (Propagated (BaseExc e), st)
        end
    end.

(** A watchdog event. *)
Record Event := {
  is_directory : bool;
  src_path : Path;
  dest_path : Path
}.

Definition on_created (fuel : nat) (env : Env) (event : Event) (st : State)
  : option (Outcome * State) :=
  if is_directory event then Some (Returned, st)
  else process_event fuel env (src_path event) st.

Definition on_moved (fuel : nat) (env : Env) (event : Event) (st : State)
  : option (Outcome * State) :=
  if is_directory event then Some (Returned, st)
  else process_event fuel env (dest_path event) st.

End Handler.

Import Handler.

(** ** Sample runs *)

Module Samples.

(** A world where sleeps are exact, the file [present] exists from the
    instant [since] on, the file [gone] stops existing then, no other file
    exists, Safari shows [url] (osascript ends its output with a line feed)
    and [shutil.move] answers [mv]. *)
Definition world (present gone : Path) (since : Q) (url : str)
    (mv : option Raised) : Env :=
  {| exists_at := fun t p =>
       if str_eqb p present then Qle_bool since t
       else if str_eqb p gone then Qltb t since
       else false;
     wake := fun t d => t + d;
     osascript_stdout := fun _ => url ++ [10%N];
     shutil_move := fun _ _ _ => mv;
     home := lit "/Users/me" |}.

(** A world where every path exists at every instant. *)
Definition crowded : Env :=
  {| exists_at := fun _ _ => true;
     wake := fun t d => t + d;
     osascript_stdout := fun _ => [];
     shutil_move := fun _ _ _ => None;
     home := lit "/Users/me" |}.

Definition st0 : State := {| now := 0; stdout := []; moves := [] |}.

Definition report_download : Path := lit "/Users/me/Downloads/report.pdf.download".
Definition report : Path := lit "/Users/me/Downloads/report.pdf".
Definition photo : Path := lit "/Users/me/Downloads/photo.jpg".

End Samples.

Import Samples.

(** ** Notions for the further properties *)

Module Notions.

(** A string of white space only (the empty string is one). *)
Definition blank (s : str) : bool := forallb isspace s.

Definition no_slash (s : str) : bool := negb (existsb (N.eqb slash) s).

Definition starts_with_space (s : str) : bool :=
  match s with
  | c :: _ => isspace c
  | [] => false
  end.

(** A string with every reserved character read as a slash: two strings
    with the same image differ only in which reserved characters they use. *)
Definition reserved_as_slash (s : str) : str :=
  map (fun c => if reserved c then slash else c) s.

Definition not_underscore (c : char) : bool := negb (N.eqb c underscore).

(** The number of maximal runs of reserved characters of [s]; [prev] tells
    that the character before [s] is reserved, so that a run that goes on is
    not counted again. *)
Fixpoint reserved_runs (prev : bool) (s : str) : nat :=
  match s with
  | [] => 0
  | c :: t =>
      (if reserved c && negb prev then 1 else 0) + reserved_runs (reserved c) t
  end.

(** The number of characters that remain once the runs of reserved
    characters collapse: the characters that are not reserved, and one for
    each run. *)
Definition collapsed_length (s : str) : nat :=
  length (filter (fun c => negb (reserved c)) s) + reserved_runs false s.


(** The destination [process_event] computes for the resolved file [src]
    when the context is read at the instant [t]. *)
Definition destination (env : Env) (t : Q) (src : Path) : Path :=
  joinpath (DEST_DIR env) (new_name (get_safari_url env t) src).

(** What one event may do to the files: nothing at all, or one call of
    [shutil.move], for a path that existed when the event was handled, of the
    path itself or of its final path, to the destination computed when the
    handler returns. *)
Definition moves_once (env : Env) (path : Path) (st st' : State) : Prop :=
  st' = st
  \/ (exists_at env (now st) path = true
      /\ exists src,
           (src = path \/ (suffix path = marker /\ src = final_path path))
           /\ moves st' = moves st ++ [(src, destination env (now st') src)]).

End Notions.

Import Notions.

(** ** The screenshot renamer (screenshot.py) *)

Module Screenshot.

Definition NNBSP : char := 8239%N.   (* U+202F, narrow no-break space *)
Definition NBSP : char := 160%N.     (* U+00A0, no-break space *)
Definition space : char := 32%N.

Definition odd_space (c : char) : bool := N.eqb c NNBSP || N.eqb c NBSP.

(** An odd space read as a space. *)
Definition plain (c : char) : char := if odd_space c then space else c.

(** [s.startswith(prefix)]. *)
Definition startswith (prefix s : str) : bool :=
  str_eqb (firstn (length prefix) s) prefix.

(** [s.replace(old, new)] for strings of one character. *)
Definition replace_char (old new : char) (s : str) : str :=
  map (fun c => if N.eqb c old then new else c) s.

Fixpoint drop_leading_sep (s : str) : str :=
  match s with
  | [] => []
  | c :: t => if N.eqb c slash then drop_leading_sep t else s
  end.

(** [s.rstrip('/')]. *)
Definition rstrip_sep (s : str) : str := rev (drop_leading_sep (rev s)).

(** [head == sep * len(head)]. *)
Definition all_sep (s : str) : bool := forallb (fun c => N.eqb c slash) s.

Definition ends_with_sep (s : str) : bool :=
  match rev s with
  | c :: _ => N.eqb c slash
  | [] => false
  end.

(** [os.path.split(p)] of posixpath: with [i = p.rfind('/') + 1], the head
    [p[:i]] and the tail [p[i:]]; a head that is not empty and not made of
    slashes only loses its trailing slashes. *)
Definition os_path_split (p : str) : str * str :=
  let i := match rfind slash p with Some j => S j | None => O end in
  let head := firstn i p in
  let tail := skipn i p in
  (if negb (str_eqb head []) && negb (all_sep head) then rstrip_sep head else head,
   tail).

(** [os.path.basename(p)]: [p[p.rfind('/') + 1:]]. *)
Definition os_path_basename (p : str) : str :=
  skipn (match rfind slash p with Some j => S j | None => O end) p.

(** [os.path.join(a, b)] of posixpath. *)
Definition os_path_join (a b : str) : str :=
  if startswith [slash] b then b
  else if str_eqb a [] || ends_with_sep a then a ++ b
  else a ++ [slash] ++ b.

(** What [os.rename] answers: done, [FileNotFoundError], or another
    exception with its text. *)
Inductive Renaming :=
| RenameDone
| FileNotFoundError
| OtherError (e : str).

(** The state of a run of the screenshot script: the lines printed and the
    calls of [os.rename] made, oldest first. *)
Record Desk := {
  printed : list str;
  renamed : list (str * str)
}.

Definition say (line : str) (st : Desk) : Desk :=
  {| printed := printed st ++ [line]; renamed := renamed st |}.

Definition note_rename (src dst : str) (st : Desk) : Desk :=
  {| printed := printed st; renamed := renamed st ++ [(src, dst)] |}.

(** How a call ends: with a value, or with an exception that leaves it. *)
Inductive Result (A : Type) :=
| Return (a : A)
| Raise (e : str).

Arguments Return {A} a.
Arguments Raise {A} e.

Definition msg_normalized (n : str) : str := lit "Normalized filename: " ++ n.
Definition msg_disappeared : str :=
  lit "File disappeared before renaming (macOS temp behavior). Skipping.".
Definition msg_error (image_path e : str) : str :=
  lit "Error processing " ++ image_path ++ lit ": " ++ e.

(** The file name [normalize_screenshot_path] makes of a file name: the two
    no-break spaces become spaces, then one leading dot is dropped. *)
Definition clean_filename (filename : str) : str :=
  let filename := replace_char NBSP space (replace_char NNBSP space filename) in
  if startswith (lit ".") filename then skipn 1 filename else filename.

Definition normalize_screenshot_path (os_rename : str -> str -> Renaming)
    (path : str) (st : Desk) : Result str * Desk :=
  let (dirname, filename) := os_path_split path in
  let filename := clean_filename filename in
  let clean_path := os_path_join dirname filename in
  if negb (str_eqb clean_path path) then
    let st := note_rename path clean_path st in
    match os_rename path clean_path with
    | RenameDone =>
        (Return clean_path, say (msg_normalized (os_path_basename clean_path)) st)
    | FileNotFoundError => (Return clean_path, say msg_disappeared st)
    | OtherError e => (Raise e, st)
    end
  else (Return clean_path, st).

(** The path [normalize_screenshot_path] computes. *)
Definition clean_path (path : str) : str :=
  os_path_join (fst (os_path_split path)) (clean_filename (snd (os_path_split path))).

(** What [pytesseract.image_to_data(Image.open(image_path), ...)] gives: an
    exception, or the dictionary, of which the lists under the keys [text] and
    [height] are used. *)
Inductive Ocr :=
| OcrRaised (e : str)
| OcrDict (text : list str) (height : list Z).

(** The [for] loop of [extract_largest_text], from the index [i] on, with the
    values of [max_height] and [largest_text] at that point; [None] is the
    [IndexError] of [data["height"][i]]. *)
Fixpoint largest_loop (i : nat) (texts : list str) (heights : list Z)
    (max_height : Z) (largest_text : option str) : option (Z * option str) :=
  match texts with
  | [] => Some (max_height, largest_text)
  | text :: rest =>
      match strip text with
      | [] => largest_loop (S i) rest heights max_height largest_text
      | text =>
          match nth_error heights i with
          | None => None
          | Some height =>
              if (max_height <? height)%Z
              then largest_loop (S i) rest heights height (Some text)
              else largest_loop (S i) rest heights max_height largest_text
          end
      end
  end.

(** The characters of [[A-Za-z0-9]]. *)
Definition is_alnum (c : char) : bool :=
  ((65 <=? c) && (c <=? 90) || (97 <=? c) && (c <=? 122)
   || (48 <=? c) && (c <=? 57))%N.

(** [re.sub] for a class given by a test, as [re_sub_plus]. *)
Fixpoint re_sub_where (cls : char -> bool) (repl : str) (in_match : bool)
    (s : str) : str :=
  match s with
  | [] => []
  | c :: t =>
      if cls c
      then (if in_match then [] else repl) ++ re_sub_where cls repl true t
      else c :: re_sub_where cls repl false t
  end.

(** [re.sub(r"[^A-Za-z0-9]+", "_", s)]. *)
Definition non_alnum_to_underscore (s : str) : str :=
  re_sub_where (fun c => negb (is_alnum c)) (lit "_") false s.

Definition extract_largest_text (image_to_data : str -> Ocr) (image_path : str)
    (st : Desk) : option str * Desk :=
  match image_to_data image_path with
  | OcrRaised e => (None, say (msg_error image_path e) st)
  | OcrDict texts heights =>
      match largest_loop 0 texts heights 0 None with
      | None =>
          (None, say (msg_error image_path (lit "list index out of range")) st)
      | Some (_, Some (c :: t)) =>
          (Some (non_alnum_to_underscore (strip (c :: t))), st)
      | Some _ => (None, st)
      end
  end.

(** The entry [j] of the OCR data holds, stripped, the text [t], which is not
    blank, with the height [h]. *)
Definition entry (texts : list str) (heights : list Z) (j : nat) (t : str)
    (h : Z) : Prop :=
  exists raw, nth_error texts j = Some raw /\ strip raw = t /\ t <> []
              /\ nth_error heights j = Some h.

Fixpoint no_adjacent_underscores (s : str) : bool :=
  match s with
  | [] => true
  | c :: t =>
      match t with
      | [] => true
      | d :: _ =>
          negb (N.eqb c underscore && N.eqb d underscore)
          && no_adjacent_underscores t
      end
  end.

End Screenshot.

Import Screenshot.

(** ** Facts on strings *)

Lemma str_eqb_eq (a b : str) : str_eqb a b = true <-> a = b.
Proof.
  unfold str_eqb. destruct (list_eq_dec N.eq_dec a b); split; congruence.
Qed.

Lemma str_eqb_neq (a b : str) : str_eqb a b = false <-> a <> b.
Proof.
  unfold str_eqb. destruct (list_eq_dec N.eq_dec a b); split; congruence.
Qed.

(** ** The substitution *)

Section Substitution.

Variables cls repl : str.

(** The model follows the matcher: a class character starts a match that
    takes the run after it, any other character is copied. *)
Lemma re_sub_plus_skip (t : str) :
  re_sub_plus cls repl true t = re_sub cls repl (skip_class cls t).
Proof.
  unfold re_sub. induction t as [|c t IH]; simpl; [reflexivity|].
  destruct (in_class cls c) eqn:E; simpl.
  - exact IH.
  - rewrite E. reflexivity.
Qed.

Lemma re_sub_cons (c : char) (t : str) :
  re_sub cls repl (c :: t)
  = if in_class cls c then repl ++ re_sub cls repl (skip_class cls t)
    else c :: re_sub cls repl t.
Proof.
  unfold re_sub at 1. simpl. destruct (in_class cls c).
  - rewrite re_sub_plus_skip. reflexivity.
  - reflexivity.
Qed.

(** A string without class characters is left as it is. *)
Lemma re_sub_plus_clean (b : bool) (s : str) :
  forallb (fun c => negb (in_class cls c)) s = true ->
  re_sub_plus cls repl b s = s.
Proof.
  revert b. induction s as [|c t IH]; intros b H; simpl in *; [reflexivity|].
  apply andb_true_iff in H. destruct H as [Hc Ht].
  apply negb_true_iff in Hc. rewrite Hc. f_equal. apply IH. exact Ht.
Qed.

(** When the replacement has no class character, neither has the result. *)
Lemma re_sub_plus_no_class (b : bool) (s : str) :
  forallb (fun c => negb (in_class cls c)) repl = true ->
  forallb (fun c => negb (in_class cls c)) (re_sub_plus cls repl b s) = true.
Proof.
  intros Hr. revert b. induction s as [|c t IH]; intros b; simpl; [reflexivity|].
  destruct (in_class cls c) eqn:E.
  - rewrite forallb_app, IH, andb_true_r. destruct b; [reflexivity | exact Hr].
  - simpl. rewrite E, IH. reflexivity.
Qed.

(** A non-empty replacement keeps a non-empty string non-empty. *)
Lemma re_sub_length_pos (s : str) :
  (0 < length repl)%nat -> (0 < length s)%nat ->
  (0 < length (re_sub cls repl s))%nat.
Proof.
  intros Hr Hs. destruct s as [|c t]; [inversion Hs|].
  unfold re_sub. simpl. destruct (in_class cls c).
  - rewrite length_app. lia.
  - simpl. lia.
Qed.

Lemma re_sub_plus_app (b : bool) (u w : str) :
  re_sub_plus cls repl b (u ++ w)
  = re_sub_plus cls repl b u ++ re_sub_plus cls repl (scan_state cls b u) w.
Proof.
  revert b. induction u as [|c t IH]; intros b; simpl; [reflexivity|].
  destruct (in_class cls c).
  - rewrite IH, app_assoc. reflexivity.
  - rewrite IH. reflexivity.
Qed.

Lemma scan_state_snoc (b : bool) (u : str) (c : char) :
  scan_state cls b (u ++ [c]) = in_class cls c.
Proof. revert b. induction u as [|x t IH]; intros b; simpl; auto. Qed.

(** A run of class characters met outside a match is replaced once. *)
Lemma re_sub_plus_run (r : str) :
  r <> [] -> forallb (in_class cls) r = true ->
  re_sub_plus cls repl false r = repl /\ scan_state cls false r = true.
Proof.
  intros Hne Hall. destruct r as [|c t]; [congruence|]. clear Hne.
  simpl in *. apply andb_true_iff in Hall. destruct Hall as [Hc Ht].
  rewrite Hc. clear Hc c.
  enough (H : re_sub_plus cls repl true t = [] /\ scan_state cls true t = true).
  { destruct H as [-> ->]. rewrite app_nil_r. auto. }
  induction t as [|c t IH]; simpl in *; [auto|].
  apply andb_true_iff in Ht. destruct Ht as [Hc Ht].
  rewrite Hc. simpl. apply IH. exact Ht.
Qed.

(** What follows a run does not start with a class character, so the scan
    state is of no matter there. *)
Lemma scan_state_ends (u : str) :
  scan_state cls false u
  = match rev u with c :: _ => in_class cls c | [] => false end.
Proof.
  destruct u as [|x u] using rev_ind; [reflexivity|].
  rewrite scan_state_snoc, rev_app_distr. reflexivity.
Qed.

Lemma re_sub_plus_fresh (b : bool) (v : str) :
  match v with c :: _ => in_class cls c | [] => false end = false ->
  re_sub_plus cls repl b v = re_sub cls repl v.
Proof.
  unfold re_sub. destruct v as [|c t]; simpl; [reflexivity|].
  intros ->. reflexivity.
Qed.

End Substitution.

(** ** The naming policy: [sanitize_filename] *)

Lemma reserved_spec (c : char) :
  reserved c = true <->
  In c [60; 62; 58; 34; 47; 92; 124; 63; 42]%N.
Proof.
  unfold reserved, in_class. rewrite existsb_exists. split.
  - intros [x [Hin Hx]]. apply N.eqb_eq in Hx. subst x. exact Hin.
  - intros Hin. exists c. split; [exact Hin | apply N.eqb_refl].
Qed.

Lemma sanitize_filename_cons (c : char) (t : str) :
  sanitize_filename (c :: t)
  = firstn MAX_LEN (re_sub reserved_chars (lit "_") (c :: t)).
Proof. reflexivity. Qed.

Lemma sanitize_filename_nonempty (s : str) :
  s <> [] ->
  sanitize_filename s = firstn MAX_LEN (re_sub reserved_chars (lit "_") s).
Proof. destruct s; [congruence | reflexivity]. Qed.

Lemma fallback_clean :
  forallb (fun c => negb (reserved c)) (lit "unknown_source") = true.
Proof. vm_compute. reflexivity. Qed.

Lemma forallb_firstn {A} (f : A -> bool) (n : nat) (l : list A) :
  forallb f l = true -> forallb f (firstn n l) = true.
Proof.
  revert n. induction l as [|x l IH]; intros [|n]; simpl; auto.
  intros H. apply andb_true_iff in H. destruct H as [-> H]. simpl. auto.
Qed.

Lemma sanitize_filename_clean (s : str) :
  forallb (fun c => negb (reserved c)) (sanitize_filename s) = true.
Proof.
  destruct s as [|c t]; [exact fallback_clean|].
  rewrite sanitize_filename_cons. apply forallb_firstn.
  apply (re_sub_plus_no_class reserved_chars (lit "_") false (c :: t)).
  vm_compute. reflexivity.
Qed.

Lemma sanitize_filename_length_le (s : str) :
  (length (sanitize_filename s) <= MAX_LEN)%nat.
Proof.
  destruct s as [|c t].
  - vm_compute. lia.
  - rewrite sanitize_filename_cons, length_firstn. lia.
Qed.

Lemma sanitize_filename_length_pos (s : str) :
  (0 < length (sanitize_filename s))%nat.
Proof.
  destruct s as [|c t].
  - vm_compute. lia.
  - rewrite sanitize_filename_cons, length_firstn.
    assert (H : (0 < length (re_sub reserved_chars (lit "_") (c :: t)))%nat).
    { apply re_sub_length_pos; simpl; lia. }
    unfold MAX_LEN. lia.
Qed.

(** A safe string: not empty, no reserved character, within the bound. *)
Lemma sanitize_filename_safe (s : str) :
  s <> [] ->
  forallb (fun c => negb (reserved c)) s = true ->
  (length s <= MAX_LEN)%nat ->
  sanitize_filename s = s.
Proof.
  intros Hne Hclean Hlen. rewrite (sanitize_filename_nonempty Hne).
  unfold re_sub. rewrite (re_sub_plus_clean reserved_chars (lit "_") false s Hclean).
  apply firstn_all2. exact Hlen.
Qed.

(** Without two reserved neighbours every match is one character long. *)
Lemma re_sub_no_adjacent (s : str) :
  no_adjacent_reserved s = true ->
  re_sub reserved_chars (lit "_") s = replace_each s.
Proof.
  induction s as [|c t IH]; intros H; [reflexivity|].
  rewrite re_sub_cons. fold (reserved c).
  unfold replace_each. cbn [map]. fold (replace_each t).
  destruct t as [|d t'].
  - destruct (reserved c); reflexivity.
  - cbn [no_adjacent_reserved] in H. apply andb_true_iff in H.
    destruct H as [Hcd Ht]. specialize (IH Ht).
    destruct (reserved c) eqn:Ec.
    + simpl in Hcd. apply negb_true_iff in Hcd.
      cbn [skip_class]. fold (reserved d). rewrite Hcd, IH. reflexivity.
    + rewrite IH. reflexivity.
Qed.

(** C1, as stated, fails: a run of reserved characters gets one underscore,
    not one per character, and the equals sign is not reserved.  The context
    string of the scenario is not mapped to the name the scenario expects, nor
    to its character-by-character replacement. *)
Lemma sanitize_filename_url_not_per_character :
  sanitize_filename (lit "https://example.com/invoice?id=42")
    = lit "https_example.com_invoice_id=42"
  /\ sanitize_filename (lit "https://example.com/invoice?id=42")
    <> lit "https___example.com_invoice_id_42"
  /\ sanitize_filename (lit "https://example.com/invoice?id=42")
    <> replace_each (lit "https://example.com/invoice?id=42").
Proof. vm_compute. repeat split; discriminate. Qed.

(** C1 (amended): in a non-empty input every maximal run of reserved
    characters, bounded by the ends of the string or by characters that are
    not reserved, is replaced by one underscore and the result is cut to its
    first 200 characters; where no two reserved characters are neighbours each
    reserved character is replaced by its own underscore and every other
    character is kept; the context string https://example.com/invoice?id=42
    becomes https_example.com_invoice_id=42. *)
Theorem sanitize_filename_runs :
  (forall u r v : str,
      r <> [] -> forallb reserved r = true ->
      ends_reserved u = false -> starts_reserved v = false ->
      sanitize_filename (u ++ r ++ v)
      = firstn MAX_LEN (re_sub reserved_chars (lit "_") u ++ [underscore]
                        ++ re_sub reserved_chars (lit "_") v))
  /\ (forall s : str,
      s <> [] -> no_adjacent_reserved s = true ->
      sanitize_filename s = firstn MAX_LEN (replace_each s))
  /\ sanitize_filename (lit "https://example.com/invoice?id=42")
     = lit "https_example.com_invoice_id=42".
Proof.
  split; [|split].
  - intros u r v Hne Hall Hu Hv.
    assert (Hne' : u ++ r ++ v <> []).
    { destruct u; [destruct r; [congruence | discriminate] | discriminate]. }
    rewrite (sanitize_filename_nonempty Hne'). f_equal.
    unfold re_sub at 1. rewrite re_sub_plus_app.
    unfold ends_reserved, starts_reserved, reserved in Hu.
    rewrite <- scan_state_ends in Hu. rewrite Hu, re_sub_plus_app.
    destruct (re_sub_plus_run reserved_chars (lit "_") Hne Hall) as [-> ->].
    rewrite (re_sub_plus_fresh reserved_chars (lit "_") true v Hv).
    reflexivity.
  - intros s Hne Hs. rewrite (sanitize_filename_nonempty Hne).
    rewrite (re_sub_no_adjacent s Hs). reflexivity.
  - vm_compute. reflexivity.
Qed.

Lemma sanitize_filename_runs_witness :
  sanitize_filename (lit "https" ++ lit "://" ++ lit "example.com")
  = firstn MAX_LEN (re_sub reserved_chars (lit "_") (lit "https") ++ [underscore]
                    ++ re_sub reserved_chars (lit "_") (lit "example.com")).
Proof.
  apply (proj1 sanitize_filename_runs (lit "https") (lit "://") (lit "example.com")).
  - discriminate.
  - vm_compute; reflexivity.
  - vm_compute; reflexivity.
  - vm_compute; reflexivity.
Defined.

(** C2: whatever the input, and so for every input with a reserved character,
    the output of [sanitize_filename] has no reserved character: none of the
    nine, the path separator among them. *)
Theorem sanitize_filename_no_reserved (s : str) :
  forallb (fun c => negb (reserved c)) (sanitize_filename s) = true
  /\ existsb (N.eqb slash) (sanitize_filename s) = false.
Proof.
  pose proof (sanitize_filename_clean s) as H. split; [exact H|].
  induction (sanitize_filename s) as [|c l IH]; [reflexivity|].
  cbn [forallb existsb] in *. apply andb_true_iff in H. destruct H as [Hc Hl].
  rewrite (IH Hl), orb_false_r. apply N.eqb_neq. intros <-.
  vm_compute in Hc. discriminate.
Qed.

(** C3, as stated, fails: an input of 201 slashes is one run, its output is
    one underscore. *)
Lemma sanitize_filename_long_run_short :
  (MAX_LEN < length (repeat slash 201))%nat
  /\ sanitize_filename (repeat slash 201) = lit "_"
  /\ length (sanitize_filename (repeat slash 201)) <> MAX_LEN.
Proof. vm_compute. repeat split; try lia; discriminate. Qed.

(** The substitution leaves the characters that are not reserved and one
    underscore for each run of reserved characters. *)
Lemma re_sub_plus_collapsed (b : bool) (s : str) :
  length (re_sub_plus reserved_chars (lit "_") b s)
  = (length (filter (fun c => negb (reserved c)) s) + reserved_runs b s)%nat.
Proof.
  revert b. induction s as [|c t IH]; intros b; [reflexivity|].
  cbn [re_sub_plus filter reserved_runs]. fold (reserved c).
  destruct (reserved c); cbn [negb andb].
  - rewrite length_app, IH. destruct b; simpl; lia.
  - cbn [length]. rewrite IH. lia.
Qed.

(** C3 (amended): the output is never longer than 200 characters, and for an
    input longer than 200 characters of which at least 200 characters remain
    once the runs of reserved characters collapse (the characters that are not
    reserved, and one for each run) its length is exactly 200: the input is
    cut, not rejected.  So it is in particular for an input longer than 200
    characters in which no two reserved characters are neighbours. *)
Theorem sanitize_filename_truncates (s : str) :
  (length (sanitize_filename s) <= MAX_LEN)%nat
  /\ ((MAX_LEN < length s)%nat -> (MAX_LEN <= collapsed_length s)%nat ->
      length (sanitize_filename s) = MAX_LEN)
  /\ ((MAX_LEN < length s)%nat -> no_adjacent_reserved s = true ->
      length (sanitize_filename s) = MAX_LEN).
Proof.
  split; [apply sanitize_filename_length_le|]. split.
  - intros Hlen Hs.
    assert (Hne : s <> []) by (destruct s; [inversion Hlen | discriminate]).
    rewrite (sanitize_filename_nonempty Hne), length_firstn. unfold re_sub.
    rewrite re_sub_plus_collapsed. unfold collapsed_length in Hs. lia.
  - intros Hlen Hs.
    assert (Hne : s <> []) by (destruct s; [inversion Hlen | discriminate]).
    rewrite (sanitize_filename_nonempty Hne), (re_sub_no_adjacent s Hs).
    rewrite length_firstn. unfold replace_each. rewrite length_map. lia.
Qed.

Lemma sanitize_filename_truncates_witness :
  length (sanitize_filename (lit "https://" ++ repeat 97%N 300)) = MAX_LEN.
Proof.
  apply (proj1 (proj2 (sanitize_filename_truncates
                         (lit "https://" ++ repeat 97%N 300)))).
  - vm_compute. lia.
  - vm_compute. lia.
Defined.

(** C4: for the empty string [sanitize_filename] returns the fallback token
    [unknown_source]. *)
Theorem sanitize_filename_empty :
  sanitize_filename [] = lit "unknown_source".
Proof. reflexivity. Qed.

(** C5: [sanitize_filename] is idempotent, and a string that is already safe
    (not empty, without reserved characters, at most 200 characters long) is
    returned unchanged. *)
Theorem sanitize_filename_idempotent :
  (forall s : str,
      sanitize_filename (sanitize_filename s) = sanitize_filename s)
  /\ (forall s : str,
      s <> [] ->
      forallb (fun c => negb (reserved c)) s = true ->
      (length s <= MAX_LEN)%nat ->
      sanitize_filename s = s).
Proof.
  split.
  - intros s. apply sanitize_filename_safe.
    + pose proof (sanitize_filename_length_pos s) as H.
      destruct (sanitize_filename s); [inversion H | discriminate].
    + apply sanitize_filename_clean.
    + apply sanitize_filename_length_le.
  - exact sanitize_filename_safe.
Qed.

Lemma sanitize_filename_idempotent_witness :
  sanitize_filename (lit "report_2024.final") = lit "report_2024.final".
Proof.
  apply (proj2 sanitize_filename_idempotent (lit "report_2024.final")).
  - discriminate.
  - vm_compute; reflexivity.
  - vm_compute; lia.
Defined.

(** C10: [sanitize_filename] never returns the empty string, so in the name
    [process_event] gives the destination, the base before the suffix of the
    file is never empty. *)
Theorem sanitize_filename_not_empty (url : str) (path : Path) :
  (0 < length (sanitize_filename url))%nat
  /\ exists base : str,
       new_name url path = base ++ suffix path /\ (0 < length base)%nat.
Proof.
  split; [apply sanitize_filename_length_pos|].
  exists (sanitize_filename url). split; [reflexivity|].
  apply sanitize_filename_length_pos.
Qed.

(** ** The stability resolver: [wait_for_download_complete] *)

Lemma Qltb_true (x y : Q) : Qltb x y = true <-> x < y.
Proof.
  unfold Qltb. rewrite negb_true_iff. split.
  - intros H. apply Qnot_le_lt. intros Hle.
    apply Qle_bool_iff in Hle. congruence.
  - intros H. destruct (Qle_bool y x) eqn:E; [|reflexivity].
    apply Qle_bool_iff in E. apply Qle_not_lt in E. contradiction.
Qed.

Lemma Qltb_false (x y : Q) : Qltb x y = false <-> y <= x.
Proof.
  unfold Qltb. rewrite negb_false_iff. apply Qle_bool_iff.
Qed.

Lemma inject_Z_succ (n : nat) :
  inject_Z (Z.of_nat (S n)) == inject_Z (Z.of_nat n) + 1.
Proof.
  rewrite Nat2Z.inj_succ, <- Z.add_1_r, inject_Z_plus. reflexivity.
Qed.

Section Polling.

Variable env : Env.
Hypothesis Hsleep : sleeps_enough env.

Variables (path final : Path) (t0 : Q) (timeout : Z).

(** Round [k] starts at least [k] seconds after the loop was entered. *)
Lemma poll_time_ge (k : nat) :
  t0 + inject_Z (Z.of_nat k) <= poll_time env t0 k.
Proof.
  induction k as [|k IH].
  - simpl. change (inject_Z 0) with 0. lra.
  - cbn [poll_time]. rewrite inject_Z_succ.
    pose proof (Hsleep (poll_time env t0 k) 1) as H. lra.
Qed.

Lemma poll_time_mono (n k : nat) :
  (n <= k)%nat -> poll_time env t0 n <= poll_time env t0 k.
Proof.
  induction 1 as [|k Hle IH]; [lra|].
  cbn [poll_time]. pose proof (Hsleep (poll_time env t0 k) 1) as H. lra.
Qed.

(** A round that passes the test of the [while] has a number below the
    timeout. *)
Lemma within_bound (n : nat) :
  poll_time env t0 n - t0 < inject_Z timeout -> (Z.of_nat n < timeout)%Z.
Proof.
  intros H. rewrite Zlt_Qlt. pose proof (poll_time_ge n) as Hge. lra.
Qed.

(** The loop ends: [timeout + 1] rounds of fuel are enough, however the
    files behave. *)
Lemma poll_total (fuel n : nat) (st : State) :
  now st = poll_time env t0 n ->
  (1 <= fuel)%nat -> (timeout + 1 <= Z.of_nat fuel + Z.of_nat n)%Z ->
  exists r, poll fuel env path final t0 timeout st = Some r.
Proof.
  revert n st. induction fuel as [|fuel IH]; intros n st Hnow H1 Hfuel; [lia|].
  cbn [poll]. destruct (Qltb (now st - t0) (inject_Z timeout)) eqn:Ew; [|eauto].
  destruct (download_done env (now st) path final); [eauto|].
  apply Qltb_true in Ew. rewrite Hnow in Ew. apply within_bound in Ew.
  apply (IH (S n)).
  - cbn [sleep now poll_time]. rewrite Hnow. reflexivity.
  - lia.
  - lia.
Qed.

(** A round within the timeout that finds the marker gone and the final
    file there makes the loop return the final path. *)
Lemma poll_done (k fuel n : nat) (st : State) :
  now st = poll_time env t0 n -> (n <= k)%nat ->
  poll_time env t0 k - t0 < inject_Z timeout ->
  download_done env (poll_time env t0 k) path final = true ->
  (1 <= fuel)%nat -> (timeout + 1 <= Z.of_nat fuel + Z.of_nat n)%Z ->
  exists st', poll fuel env path final t0 timeout st = Some (final, st')
              /\ stdout st' = stdout st ++ [msg_complete (name final)]
              /\ moves st' = moves st.
Proof.
  revert n st. induction fuel as [|fuel IH];
    intros n st Hnow Hnk Hk Hdone H1 Hfuel; [lia|].
  cbn [poll].
  assert (Ew : Qltb (now st - t0) (inject_Z timeout) = true).
  { apply Qltb_true. rewrite Hnow.
    pose proof (poll_time_mono Hnk) as Hm. lra. }
  rewrite Ew. apply Qltb_true in Ew. rewrite Hnow in Ew.
  apply within_bound in Ew.
  destruct (download_done env (now st) path final) eqn:Ed.
  - eexists. split; [reflexivity|]. split; reflexivity.
  - assert (Hlt : (n < k)%nat).
    { destruct (Nat.eq_dec n k) as [->|Hne]; [|lia].
      rewrite Hnow in Ed. congruence. }
    destruct (IH (S n) (sleep env 1 st)) as [st' [Hp [Hout Hmv]]];
      try assumption; try lia.
    + cbn [sleep now poll_time]. rewrite Hnow. reflexivity.
    + exists st'. split; [exact Hp|]. split; assumption.
Qed.

(** When no round finds the download done, the loop gives the marker path
    back once the timeout has elapsed, with the warning printed. *)
Lemma poll_timed_out (fuel n : nat) (st : State) :
  now st = poll_time env t0 n ->
  (forall k, download_done env (poll_time env t0 k) path final = false) ->
  (1 <= fuel)%nat -> (timeout + 1 <= Z.of_nat fuel + Z.of_nat n)%Z ->
  exists st', poll fuel env path final t0 timeout st = Some (path, st')
              /\ stdout st' = stdout st ++ [msg_timed_out (name path)]
              /\ moves st' = moves st
              /\ t0 + inject_Z timeout <= now st'.
Proof.
  revert n st. induction fuel as [|fuel IH];
    intros n st Hnow Hnever H1 Hfuel; [lia|].
  cbn [poll]. destruct (Qltb (now st - t0) (inject_Z timeout)) eqn:Ew.
  - assert (Ed : download_done env (now st) path final = false)
      by (rewrite Hnow; apply Hnever).
    rewrite Ed. apply Qltb_true in Ew. rewrite Hnow in Ew. apply within_bound in Ew.
    destruct (IH (S n) (sleep env 1 st)) as [st' [Hp [Hout [Hmv Ht]]]];
      try assumption; try lia.
    + cbn [sleep now poll_time]. rewrite Hnow. reflexivity.
    + exists st'. repeat split; assumption.
  - apply Qltb_false in Ew.
    eexists. split; [reflexivity|]. cbn [print stdout moves now].
    repeat split. lra.
Qed.

End Polling.

(** The suffix of a path is an end of its string, so the slice that drops
    nine characters strips the marker. *)
Lemma name_is_end (p : Path) : exists d, p = d ++ name p.
Proof.
  unfold name. destruct (rfind slash p) as [i|].
  - exists (firstn (S i) p). symmetry. apply firstn_skipn.
  - exists []. reflexivity.
Qed.

Lemma suffix_is_end (p : Path) :
  suffix p <> [] -> exists x, p = x ++ suffix p.
Proof.
  intros H. destruct (name_is_end p) as [d Hd].
  unfold suffix in *. destruct (rfind dot (name p)) as [i|]; [|congruence].
  destruct ((0 <? i)%nat && (i <? length (name p) - 1)%nat); [|congruence].
  exists (d ++ firstn i (name p)).
  rewrite <- app_assoc, firstn_skipn. exact Hd.
Qed.

Lemma final_path_app_marker (x : str) : final_path (x ++ marker) = x.
Proof.
  unfold final_path. rewrite length_app.
  replace (length x + length marker - 9)%nat with (length x + 0)%nat
    by (change (length marker) with 9%nat; lia).
  rewrite firstn_app_2. simpl. apply app_nil_r.
Qed.

Lemma final_path_strips_marker (path : Path) :
  suffix path = marker -> path = final_path path ++ marker.
Proof.
  intros Hs. destruct (suffix_is_end path) as [x Hx].
  { rewrite Hs. discriminate. }
  rewrite Hs in Hx. clear Hs. subst path.
  rewrite final_path_app_marker. reflexivity.
Qed.

Lemma sample_sleeps_enough (present gone : Path) (since : Q) (url : str)
    (mv : option Raised) :
  sleeps_enough (world present gone since url mv).
Proof. intros t d. simpl. lra. Qed.

Lemma crowded_sleeps_enough : sleeps_enough crowded.
Proof. intros t d. simpl. lra. Qed.

(** With sleeps that last at least what they are asked the resolver ends,
    with or without the marker. *)
Lemma wait_total (fuel : nat) (env : Env) (path : Path) (timeout : Z)
    (st : State) :
  sleeps_enough env -> (Z.max 0 timeout < Z.of_nat fuel)%Z ->
  exists r, wait_for_download_complete fuel env path timeout st = Some r.
Proof.
  intros Hsleep Hfuel. unfold wait_for_download_complete.
  destruct (negb (str_eqb (suffix path) marker)); [eauto|].
  apply (@poll_total env Hsleep path (final_path path) (now st) timeout
           fuel 0%nat); [reflexivity | lia | lia].
Qed.

(** C6: a path whose suffix is not the marker [.download] is returned as it
    is, at once: the state (the clock, the lines printed) is the one of the
    call, whatever the fuel, the timeout and the world. *)
Theorem wait_without_marker (fuel : nat) (env : Env) (path : Path)
    (timeout : Z) (st : State) :
  suffix path <> marker ->
  wait_for_download_complete fuel env path timeout st = Some (path, st).
Proof.
  intros H. unfold wait_for_download_complete.
  apply str_eqb_neq in H. rewrite H. reflexivity.
Qed.

Lemma wait_without_marker_witness :
  wait_for_download_complete 0 crowded photo 60 st0 = Some (photo, st0).
Proof.
  apply (@wait_without_marker 0 crowded photo 60 st0).
  vm_compute. discriminate.
Defined.

(** C7, as stated, fails twice.  In a world where the final file is there
    from the start but the marker file stays, the resolver gives the marker
    path back after the timeout.  In a world where the marker is replaced by
    the final file 59.5 seconds after the call, within the timeout of 60 but
    after the last round of the loop, it gives the marker path back too. *)
Lemma wait_misses_final_file :
  suffix report_download = marker
  /\ final_path report_download = report
  /\ report <> report_download
  /\ (forall t, exists_at crowded t report = true)
  /\ option_map fst (wait_for_download_complete 61 crowded report_download 60 st0)
     = Some report_download
  /\ (forall t, 119 # 2 <= t ->
        download_done (world report report_download (119 # 2) [] None) t
          report_download report = true)
  /\ option_map fst
       (wait_for_download_complete 61
          (world report report_download (119 # 2) [] None) report_download 60 st0)
     = Some report_download.
Proof.
  split; [vm_compute; reflexivity|].
  split; [vm_compute; reflexivity|].
  split; [vm_compute; discriminate|].
  split; [intros t; reflexivity|].
  split; [vm_compute; reflexivity|].
  split; [|vm_compute; reflexivity].
  intros t Ht. unfold download_done, world, exists_at.
  change (str_eqb report_download report) with false.
  change (str_eqb report_download report_download) with true.
  change (str_eqb report report) with true.
  cbv iota. unfold Qltb. rewrite negb_involutive.
  apply Qle_bool_iff in Ht. rewrite Ht. reflexivity.
Qed.

(** C7 (amended): for a path with the marker suffix, when a round of the
    loop that starts before the timeout has elapsed finds that the marker file
    no longer exists and that the final file (the path without the marker
    suffix) exists, the resolver returns the final path, having printed that
    the download is complete. *)
Theorem wait_returns_final (fuel : nat) (env : Env) (path : Path)
    (timeout : Z) (st : State) (k : nat) :
  sleeps_enough env ->
  suffix path = marker ->
  poll_time env (now st) k - now st < inject_Z timeout ->
  exists_at env (poll_time env (now st) k) path = false ->
  exists_at env (poll_time env (now st) k) (final_path path) = true ->
  (timeout < Z.of_nat fuel)%Z ->
  exists st',
    wait_for_download_complete fuel env path timeout st
      = Some (final_path path, st')
    /\ path = final_path path ++ marker
    /\ stdout st' = stdout st ++ [msg_waiting (name path);
                                  msg_complete (name (final_path path))].
Proof.
  intros Hsleep Hs Hk Hgone Hthere Hfuel.
  unfold wait_for_download_complete.
  apply str_eqb_eq in Hs. rewrite Hs. cbn [negb]. apply str_eqb_eq in Hs.
  pose proof (@within_bound env Hsleep (now st) timeout k Hk) as Hkt.
  destruct (@poll_done env Hsleep path (final_path path) (now st) timeout
              k fuel 0%nat (print (msg_waiting (name path)) st))
    as [st' [Hp [Hout Hmv]]]; try reflexivity; try assumption; try lia.
  - unfold download_done. rewrite Hgone, Hthere. reflexivity.
  - exists st'. split; [exact Hp|]. split; [apply final_path_strips_marker, Hs|].
    rewrite Hout. cbn [print stdout]. rewrite <- app_assoc. reflexivity.
Qed.

Lemma wait_returns_final_witness :
  exists st',
    wait_for_download_complete 61 (world report report_download 2 [] None)
      report_download 60 st0
      = Some (final_path report_download, st')
    /\ report_download = final_path report_download ++ marker
    /\ stdout st' = stdout st0 ++ [msg_waiting (name report_download);
                                   msg_complete (name (final_path report_download))].
Proof.
  apply (@wait_returns_final 61 (world report report_download 2 [] None)
           report_download 60 st0 2).
  - apply sample_sleeps_enough.
  - vm_compute; reflexivity.
  - vm_compute; reflexivity.
  - vm_compute; reflexivity.
  - vm_compute; reflexivity.
  - lia.
Defined.

(** C8: for a path with the marker suffix the wait is bounded.  With sleeps
    that last at least what they are asked, the loop ends within [timeout + 1]
    rounds however the files behave; and when the final file never exists,
    the marker file being there or not, the resolver returns the marker path
    it was given once the timeout has elapsed, having printed the warning. *)
Theorem wait_is_bounded (fuel : nat) (env : Env) (path : Path)
    (timeout : Z) (st : State) :
  sleeps_enough env ->
  suffix path = marker ->
  (Z.max 0 timeout < Z.of_nat fuel)%Z ->
  (exists r, wait_for_download_complete fuel env path timeout st = Some r)
  /\ ((forall t, exists_at env t (final_path path) = false) ->
      exists st',
        wait_for_download_complete fuel env path timeout st = Some (path, st')
        /\ stdout st' = stdout st ++ [msg_waiting (name path);
                                      msg_timed_out (name path)]
        /\ now st + inject_Z timeout <= now st').
Proof.
  intros Hsleep Hs Hfuel. unfold wait_for_download_complete.
  apply str_eqb_eq in Hs. rewrite Hs. cbn [negb]. split.
  - apply (@poll_total env Hsleep path (final_path path) (now st) timeout
             fuel 0%nat); [reflexivity | lia | lia].
  - intros Hnever.
    destruct (@poll_timed_out env Hsleep path (final_path path) (now st) timeout
                fuel 0%nat (print (msg_waiting (name path)) st))
      as [st' [Hp [Hout [Hmv Ht]]]]; try reflexivity; try lia.
    + intros k. unfold download_done. rewrite Hnever. apply andb_false_r.
    + exists st'. split; [exact Hp|]. split; [|exact Ht].
      rewrite Hout. cbn [print stdout]. rewrite <- app_assoc. reflexivity.
Qed.

Lemma wait_is_bounded_witness :
  exists st',
    wait_for_download_complete 61 (world [] report_download 1 [] None)
      report_download 60 st0 = Some (report_download, st')
    /\ stdout st' = stdout st0 ++ [msg_waiting (name report_download);
                                   msg_timed_out (name report_download)]
    /\ now st0 + inject_Z 60 <= now st'.
Proof.
  apply (@wait_is_bounded 61 (world [] report_download 1 [] None)
           report_download 60 st0).
  - apply sample_sleeps_enough.
  - vm_compute; reflexivity.
  - vm_compute; reflexivity.
  - intros t. reflexivity.
Defined.

(** ** The relocation step: [process_event] *)

(** The resolver moves no file. *)
Lemma poll_moves (fuel : nat) (env : Env) (path final : Path) (t0 : Q)
    (timeout : Z) (st : State) (p : Path) (st' : State) :
  poll fuel env path final t0 timeout st = Some (p, st') ->
  moves st' = moves st.
Proof.
  revert st. induction fuel as [|fuel IH]; intros st H; [discriminate|].
  cbn [poll] in H. destruct (Qltb (now st - t0) (inject_Z timeout)).
  - destruct (download_done env (now st) path final).
    + inversion H; subst. reflexivity.
    + apply IH in H. exact H.
  - inversion H; subst. reflexivity.
Qed.

Lemma wait_moves (fuel : nat) (env : Env) (path : Path) (timeout : Z)
    (st : State) (p : Path) (st' : State) :
  wait_for_download_complete fuel env path timeout st = Some (p, st') ->
  moves st' = moves st.
Proof.
  unfold wait_for_download_complete.
  destruct (negb (str_eqb (suffix path) marker)).
  - intros H. inversion H; subst. reflexivity.
  - intros H. apply poll_moves in H. exact H.
Qed.

(** An event for a path that is gone is skipped. *)
Lemma process_event_absent (fuel : nat) (env : Env) (path : Path) (st : State) :
  exists_at env (now st) path = false ->
  process_event fuel env path st = Some (Returned, st).
Proof. intros H. unfold process_event. rewrite H. reflexivity. Qed.


(** X13: what is not an [Exception] is not caught.  When the move raises
    an exception outside [Exception] (a keyboard interrupt), it leaves
    [process_event]. *)
Lemma process_event_base_exception (fuel : nat) (env : Env) (path : Path)
    (st : State) (path' : Path) (st1 : State) (e : str) :
  exists_at env (now st) path = true ->
  wait_for_download_complete fuel env path DEFAULT_TIMEOUT
    (print (msg_detected (name path)) st) = Some (path', st1) ->
  shutil_move env (now (sleep env WAIT_TIME st1)) path'
    (joinpath (DEST_DIR env)
       (new_name (get_safari_url env (now (sleep env WAIT_TIME st1))) path'))
    = Some (BaseExc e) ->
  option_map fst (process_event fuel env path st)
    = Some (Propagated (BaseExc e)).
Proof.
  intros Hex Hw Hmv. unfold process_event. rewrite Hex. cbn [negb].
  rewrite Hw. cbn [record_move now] in *. rewrite Hmv. reflexivity.
Qed.

(** C9, as stated, fails in its own example.  A file that is there when the
    event is handled and gone when the move is tried, two seconds later, makes
    [shutil.move] raise; the failure is caught and told, the handler returns,
    and the file is not in place. *)
Lemma process_event_file_not_in_place :
  exists_at (world [] photo 1 []
               (Some (Exc (lit "[Errno 2] No such file or directory"))))
    (now st0) photo = true
  /\ exists st',
       process_event 0
         (world [] photo 1 []
            (Some (Exc (lit "[Errno 2] No such file or directory"))))
         photo st0 = Some (Returned, st')
       /\ last (stdout st') []
          = msg_could_not_rename (lit "photo.jpg")
              (lit "[Errno 2] No such file or directory")
       /\ exists_at (world [] photo 1 []
                       (Some (Exc (lit "[Errno 2] No such file or directory"))))
            (now st') photo = false.
Proof.
  split; [vm_compute; reflexivity|].
  eexists. split; [vm_compute; reflexivity|].
  split; vm_compute; reflexivity.
Qed.

(** C9 (amended): when the move of the resolved file raises an exception (an
    instance of [Exception]: the source is gone, the permission is denied),
    [process_event] catches it and returns: nothing propagates to the watcher,
    so [on_created] and [on_moved] return too.  The line that tells the
    failure is the last one printed, and the event is dropped: the failed call
    is the only call of [shutil.move] of the event, the handler does not try
    again and touches no file afterwards.  Where the file is then is what the
    failed move and the world have made of it. *)
Theorem process_event_move_failure (fuel : nat) (env : Env) (path : Path)
    (st : State) (path' : Path) (st1 : State) (e : str) :
  exists_at env (now st) path = true ->
  wait_for_download_complete fuel env path DEFAULT_TIMEOUT
    (print (msg_detected (name path)) st) = Some (path', st1) ->
  shutil_move env (now (sleep env WAIT_TIME st1)) path'
    (joinpath (DEST_DIR env)
       (new_name (get_safari_url env (now (sleep env WAIT_TIME st1))) path'))
    = Some (Exc e) ->
  exists st',
    process_event fuel env path st = Some (Returned, st')
    /\ stdout st' = stdout st1 ++ [msg_could_not_rename (name path') e]
    /\ moves st' = moves st ++
         [(path', joinpath (DEST_DIR env)
                    (new_name (get_safari_url env (now (sleep env WAIT_TIME st1)))
                       path'))]
    /\ (forall event, is_directory event = false -> src_path event = path ->
          on_created fuel env event st = Some (Returned, st'))
    /\ (forall event, is_directory event = false -> dest_path event = path ->
          on_moved fuel env event st = Some (Returned, st')).
Proof.
  intros Hex Hw Hmv.
  assert (Hp : process_event fuel env path st
    = Some (Returned,
        print (msg_could_not_rename (name path') e)
          (record_move path'
             (joinpath (DEST_DIR env)
                (new_name (get_safari_url env (now (sleep env WAIT_TIME st1)))
                   path'))
             (sleep env WAIT_TIME st1)))).
  { unfold process_event. rewrite Hex. cbn [negb]. rewrite Hw.
    cbn [record_move now] in *. rewrite Hmv. reflexivity. }
  eexists. split; [exact Hp|].
  split; [reflexivity|].
  split.
  - cbn [print record_move sleep moves].
    rewrite (wait_moves _ _ _ _ _ Hw). reflexivity.
  - split; intros event Hd Hpath.
    + unfold on_created. rewrite Hd, Hpath. exact Hp.
    + unfold on_moved. rewrite Hd, Hpath. exact Hp.
Qed.

Lemma process_event_move_failure_witness :
  exists st',
    process_event 61
      (world report report_download 2 (lit "https://example.com/invoice?id=42")
         (Some (Exc (lit "Permission denied"))))
      report_download st0 = Some (Returned, st')
    /\ last (stdout st') []
       = msg_could_not_rename (lit "report.pdf") (lit "Permission denied")
    /\ moves st'
       = [(report,
           lit "/Users/me/Downloads/safari_renamed/https_example.com_invoice_id=42.pdf")].
Proof.
  destruct (@process_event_move_failure 61
              (world report report_download 2
                 (lit "https://example.com/invoice?id=42")
                 (Some (Exc (lit "Permission denied"))))
              report_download st0 report
              {| now := 2;
                 stdout := [msg_detected (lit "report.pdf.download");
                            msg_waiting (lit "report.pdf.download");
                            msg_complete (lit "report.pdf")];
                 moves := [] |}
              (lit "Permission denied"))
    as [st' [Hp [Hout [Hmv _]]]].
  - vm_compute; reflexivity.
  - vm_compute; reflexivity.
  - reflexivity.
  - exists st'. split; [exact Hp|]. split.
    + rewrite Hout. vm_compute. reflexivity.
    + rewrite Hmv. vm_compute. reflexivity.
Defined.

(** ** Sample runs of the script *)

Example ex_re_sub :
  re_sub reserved_chars (lit "_") (lit "a<>b") = lit "a_b"
  /\ re_sub reserved_chars (lit "_") (lit "a:b:c") = lit "a_b_c"
  /\ re_sub reserved_chars (lit "_") (lit "??") = lit "_"
  /\ re_sub reserved_chars (lit "_") (lit "plain.txt") = lit "plain.txt".
Proof. vm_compute. repeat split. Qed.

Example ex_suffix :
  suffix report_download = lit ".download"
  /\ suffix report = lit ".pdf"
  /\ suffix (lit "/Users/me/Downloads/.download") = []
  /\ suffix (lit "/Users/me/Downloads/archive.") = []
  /\ name report_download = lit "report.pdf.download".
Proof. vm_compute. repeat split. Qed.

Example ex_get_safari_url :
  get_safari_url (world report report_download 2 (lit "https://example.com") None) 4
  = lit "https://example.com".
Proof. vm_compute. reflexivity. Qed.

(** The download of [report.pdf] ends two seconds after the event; Safari
    shows the invoice. *)
Example ex_report_renamed :
  option_map (fun r => (fst r, now (snd r), moves (snd r)))
    (process_event 61
       (world report report_download 2 (lit "https://example.com/invoice?id=42") None)
       report_download st0)
  = Some (Returned, 4,
          [(report,
            lit "/Users/me/Downloads/safari_renamed/https_example.com_invoice_id=42.pdf")]).
Proof. vm_compute. reflexivity. Qed.

(** A file without the marker, no document open in Safari. *)
Example ex_photo_renamed :
  option_map (fun r => (fst r, now (snd r), moves (snd r)))
    (process_event 0 (world photo [] 0 [] None) photo st0)
  = Some (Returned, 2,
          [(photo, lit "/Users/me/Downloads/safari_renamed/unknown_source.jpg")]).
Proof. vm_compute. reflexivity. Qed.

(** A download that is cancelled: the marker goes, the final file never
    comes, and the marker path is moved after the timeout. *)
Example ex_cancelled :
  option_map (fun r => (fst r, now (snd r), map fst (moves (snd r))))
    (process_event 61 (world [] report_download 1 [] None) report_download st0)
  = Some (Returned, 62, [report_download]).
Proof. vm_compute. reflexivity. Qed.

(** ** Further properties of the stability resolver *)

(** What a finished loop tells: the final path comes with a round, within the
    timeout, that found the download done; the marker path comes with the
    timeout elapsed. *)
Lemma poll_sound (fuel : nat) (env : Env) (path final : Path) (t0 : Q)
    (timeout : Z) (st : State) (p : Path) (st' : State) :
  poll fuel env path final t0 timeout st = Some (p, st') ->
  (p = final
   /\ download_done env (now st') path final = true
   /\ now st' - t0 < inject_Z timeout
   /\ stdout st' = stdout st ++ [msg_complete (name final)])
  \/ (p = path
      /\ inject_Z timeout <= now st' - t0
      /\ stdout st' = stdout st ++ [msg_timed_out (name path)]).
Proof.
  revert st. induction fuel as [|fuel IH]; intros st H; [discriminate|].
  cbn [poll] in H.
  destruct (Qltb (now st - t0) (inject_Z timeout)) eqn:Ew.
  - destruct (download_done env (now st) path final) eqn:Ed.
    + inversion H; subst. left. cbn [print now stdout].
      apply Qltb_true in Ew. auto.
    + apply IH in H. cbn [sleep stdout] in H. exact H.
  - inversion H; subst. right. cbn [print now stdout].
    apply Qltb_false in Ew. auto.
Qed.

(** X1: the three ways [wait_for_download_complete] ends. *)
Theorem wait_result_sound (fuel : nat) (env : Env) (path : Path)
    (timeout : Z) (st : State) (p : Path) (st' : State) :
  wait_for_download_complete fuel env path timeout st = Some (p, st') ->
  (suffix path <> marker /\ p = path /\ st' = st)
  \/ (suffix path = marker /\ p = final_path path /\ p <> path
      /\ exists_at env (now st') path = false
      /\ exists_at env (now st') (final_path path) = true
      /\ now st' - now st < inject_Z timeout
      /\ stdout st' = stdout st ++ [msg_waiting (name path);
                                    msg_complete (name (final_path path))])
  \/ (suffix path = marker /\ p = path
      /\ inject_Z timeout <= now st' - now st
      /\ stdout st' = stdout st ++ [msg_waiting (name path);
                                    msg_timed_out (name path)]).
Proof.
  unfold wait_for_download_complete.
  destruct (str_eqb (suffix path) marker) eqn:Es; cbn [negb].
  - apply str_eqb_eq in Es. intros H. apply poll_sound in H.
    cbn [print now stdout] in H. right.
    destruct H as [[Hp [Hd [Ht Ho]]] | [Hp [Ht Ho]]].
    + left. unfold download_done in Hd. apply andb_true_iff in Hd.
      destruct Hd as [Hd1 Hd2]. apply negb_true_iff in Hd1.
      repeat split; try assumption.
      * subst p. intros Heq.
        pose proof (final_path_strips_marker path Es) as Hx.
        rewrite Heq in Hx. apply (f_equal (@length char)) in Hx.
        rewrite length_app in Hx. change (length marker) with 9%nat in Hx. lia.
      * rewrite Ho, <- app_assoc. reflexivity.
    + right. repeat split; try assumption.
      rewrite Ho, <- app_assoc. reflexivity.
  - apply str_eqb_neq in Es. intros H. inversion H; subst. left. auto.
Qed.

Lemma wait_result_sound_witness :
  (suffix report_download <> marker /\ report = report_download
   /\ print (msg_complete (name report))
        (sleep crowded 1 (sleep crowded 1
           (print (msg_waiting (name report_download)) st0))) = st0)
  \/ (suffix report_download = marker /\ report = final_path report_download
      /\ report <> report_download
      /\ exists_at (world report report_download 2 [] None) 2 report_download
         = false
      /\ exists_at (world report report_download 2 [] None) 2
           (final_path report_download) = true
      /\ 2 - 0 < inject_Z 60
      /\ [msg_waiting (name report_download); msg_complete (name report)]
         = [] ++ [msg_waiting (name report_download);
                  msg_complete (name (final_path report_download))])
  \/ (suffix report_download = marker /\ report = report_download
      /\ inject_Z 60 <= 2 - 0
      /\ [msg_waiting (name report_download); msg_complete (name report)]
         = [] ++ [msg_waiting (name report_download);
                  msg_timed_out (name report_download)]).
Proof.
  apply (@wait_result_sound 61 (world report report_download 2 [] None)
           report_download 60 st0 report
           (print (msg_complete (name report))
              (sleep crowded 1 (sleep crowded 1
                 (print (msg_waiting (name report_download)) st0))))).
  vm_compute. reflexivity.
Defined.

(** The rounds of a loop: it returns at the instant of a round, and with
    sleeps that last what they are asked a round after the first one has a
    number within the timeout. *)
Lemma poll_rounds (fuel : nat) (env : Env) (path final : Path) (t0 : Q)
    (timeout : Z) (n : nat) (st : State) (p : Path) (st' : State) :
  sleeps_enough env ->
  now st = poll_time env t0 n ->
  poll fuel env path final t0 timeout st = Some (p, st') ->
  exists k, now st' = poll_time env t0 k
            /\ (Z.of_nat k <= Z.max (Z.of_nat n) timeout)%Z.
Proof.
  intros Hsleep. revert n st. induction fuel as [|fuel IH];
    intros n st Hnow H; [discriminate|].
  cbn [poll] in H.
  destruct (Qltb (now st - t0) (inject_Z timeout)) eqn:Ew.
  - destruct (download_done env (now st) path final).
    + inversion H; subst. exists n. split; [exact Hnow | lia].
    + apply Qltb_true in Ew. rewrite Hnow in Ew.
      apply (within_bound Hsleep) in Ew.
      destruct (IH (S n) (sleep env 1 st)) as [k [Hk Hle]].
      * cbn [sleep now poll_time]. rewrite Hnow. reflexivity.
      * exact H.
      * exists k. split; [exact Hk | lia].
  - inversion H; subst. exists n. split; [exact Hnow | lia].
Qed.

Lemma wait_rounds (fuel : nat) (env : Env) (path : Path)
    (timeout : Z) (st : State) (p : Path) (st' : State) :
  sleeps_enough env ->
  wait_for_download_complete fuel env path timeout st = Some (p, st') ->
  exists k, now st' = poll_time env (now st) k
            /\ (Z.of_nat k <= Z.max 0 timeout)%Z.
Proof.
  intros Hsleep. unfold wait_for_download_complete.
  destruct (negb (str_eqb (suffix path) marker)).
  - intros H. inversion H; subst. exists 0%nat. split; [reflexivity | lia].
  - intros H.
    apply (@poll_rounds fuel env path (final_path path) (now st) timeout 0%nat)
      in H; [exact H | exact Hsleep | reflexivity].
Qed.

(** X2: the resolver returns after at most [timeout] sleeps.  With sleeps
    that last at least what they are asked and fuel for [timeout + 1] rounds,
    it gives a result, at the instant of a round whose number is at most the
    timeout. *)
Theorem wait_rounds_bounded (fuel : nat) (env : Env) (path : Path)
    (timeout : Z) (st : State) :
  sleeps_enough env ->
  (Z.max 0 timeout < Z.of_nat fuel)%Z ->
  exists p st' k,
    wait_for_download_complete fuel env path timeout st = Some (p, st')
    /\ now st' = poll_time env (now st) k
    /\ (Z.of_nat k <= Z.max 0 timeout)%Z.
Proof.
  intros Hsleep Hfuel.
  destruct (@wait_total fuel env path timeout st Hsleep Hfuel) as [[p st'] H].
  destruct (@wait_rounds fuel env path timeout st p st' Hsleep H) as [k [Hk Hle]].
  exists p, st', k. auto.
Qed.

Lemma wait_rounds_bounded_witness :
  exists p st' k,
    wait_for_download_complete 61 crowded report_download 60 st0 = Some (p, st')
    /\ now st' = poll_time crowded (now st0) k
    /\ (Z.of_nat k <= Z.max 0 60)%Z.
Proof.
  apply (@wait_rounds_bounded 61 crowded report_download 60 st0).
  - apply crowded_sleeps_enough.
  - lia.
Defined.





(** X4: with a timeout of zero or less the resolver asks the file system
    nothing: a path with the marker comes back at once, the warning printed,
    even when the download is already complete. *)
Theorem wait_without_patience (fuel : nat) (env : Env) (path : Path)
    (timeout : Z) (st : State) :
  suffix path = marker -> (timeout <= 0)%Z ->
  wait_for_download_complete (S fuel) env path timeout st
  = Some (path, print (msg_timed_out (name path))
                  (print (msg_waiting (name path)) st)).
Proof.
  intros Hs Hto. unfold wait_for_download_complete.
  apply str_eqb_eq in Hs. rewrite Hs. cbn [negb poll print now].
  assert (Ew : Qltb (now st - now st) (inject_Z timeout) = false).
  { apply Qltb_false. rewrite Zle_Qle in Hto.
    change (inject_Z 0) with 0 in Hto. lra. }
  rewrite Ew. reflexivity.
Qed.

Lemma wait_without_patience_witness :
  wait_for_download_complete 1 (world report report_download 0 [] None)
    report_download 0 st0
  = Some (report_download,
          print (msg_timed_out (name report_download))
            (print (msg_waiting (name report_download)) st0)).
Proof.
  apply (@wait_without_patience 0 (world report report_download 0 [] None)
           report_download 0 st0).
  - vm_compute; reflexivity.
  - lia.
Defined.

(** ** Paths: [rfind], [name], [suffix] *)

Lemma rfind_none (c : char) (s : str) :
  rfind c s = None <-> existsb (N.eqb c) s = false.
Proof.
  induction s as [|x t IH]; cbn [rfind existsb]; [tauto|].
  rewrite (N.eqb_sym c x). destruct (rfind c t) as [i|].
  - split; [discriminate|]. intros H. apply orb_false_iff in H.
    destruct H as [_ H]. apply IH in H. discriminate.
  - destruct (N.eqb x c); cbn [orb].
    + split; discriminate.
    + split; intros _; [apply IH|]; reflexivity.
Qed.

Lemma rfind_last (c : char) (d t : str) :
  existsb (N.eqb c) t = false -> rfind c (d ++ c :: t) = Some (length d).
Proof.
  intros Ht. induction d as [|x d IH]; cbn [app rfind length].
  - apply rfind_none in Ht. rewrite Ht, N.eqb_refl. reflexivity.
  - rewrite IH. reflexivity.
Qed.

Lemma rfind_split (c : char) (s : str) (i : nat) :
  rfind c s = Some i ->
  skipn i s = c :: skipn (S i) s
  /\ existsb (N.eqb c) (skipn (S i) s) = false
  /\ (i < length s)%nat.
Proof.
  revert i. induction s as [|x t IH]; intros i; cbn [rfind]; [discriminate|].
  destruct (rfind c t) as [j|] eqn:E.
  - intros H. inversion H; subst. destruct (IH j eq_refl) as [H1 [H2 H3]].
    cbn [skipn length]. repeat split; [exact H1 | exact H2 | lia].
  - destruct (N.eqb x c) eqn:Ex; [|discriminate].
    intros H. inversion H; subst. apply N.eqb_eq in Ex. subst x.
    cbn [skipn length]. apply rfind_none in E.
    repeat split; [exact E | lia].
Qed.

Lemma existsb_skipn (f : char -> bool) (i : nat) (s : str) :
  existsb f s = false -> existsb f (skipn i s) = false.
Proof.
  revert i. induction s as [|x t IH]; intros [|i] H; cbn [skipn]; auto.
  cbn [existsb] in H. apply orb_false_iff in H. apply IH, H.
Qed.

Lemma name_no_slash (p : Path) : no_slash (name p) = true.
Proof.
  unfold no_slash, name. apply negb_true_iff.
  destruct (rfind slash p) as [i|] eqn:E.
  - apply rfind_split in E. tauto.
  - apply rfind_none, E.
Qed.

Lemma suffix_no_slash (p : Path) : no_slash (suffix p) = true.
Proof.
  pose proof (name_no_slash p) as Hn. unfold no_slash in *.
  apply negb_true_iff in Hn. apply negb_true_iff. unfold suffix.
  destruct (rfind dot (name p)) as [i|]; [|reflexivity].
  destruct ((0 <? i)%nat && (i <? length (name p) - 1)%nat); [|reflexivity].
  apply existsb_skipn, Hn.
Qed.

(** A suffix that is not empty is a dot followed by at least one character,
    none of them a dot. *)
Lemma suffix_shape (p : Path) :
  suffix p <> [] ->
  exists rest, suffix p = dot :: rest /\ rest <> []
               /\ existsb (N.eqb dot) rest = false.
Proof.
  unfold suffix. destruct (rfind dot (name p)) as [i|] eqn:E; [|congruence].
  destruct ((0 <? i)%nat && (i <? length (name p) - 1)%nat) eqn:Ec; [|congruence].
  intros _. apply andb_true_iff in Ec. destruct Ec as [_ Ec].
  apply Nat.ltb_lt in Ec. destruct (rfind_split _ _ E) as [H1 [H2 H3]].
  exists (skipn (S i) (name p)). repeat split; [exact H1 | | exact H2].
  intros Hnil. apply (f_equal (@length char)) in Hnil.
  rewrite length_skipn in Hnil. simpl in Hnil. lia.
Qed.

Lemma name_joinpath (d : Path) (child : str) :
  no_slash child = true -> name (joinpath d child) = child.
Proof.
  unfold no_slash, joinpath, name. intros H. apply negb_true_iff in H.
  cbn [app]. rewrite (rfind_last slash d child H).
  change (S (length d)) with (1 + length d)%nat.
  rewrite <- skipn_skipn, skipn_app, skipn_all, Nat.sub_diag. reflexivity.
Qed.

Lemma clean_no_slash (s : str) :
  forallb (fun c => negb (reserved c)) s = true -> no_slash s = true.
Proof.
  unfold no_slash. intros H. apply negb_true_iff.
  induction s as [|c t IH]; [reflexivity|].
  cbn [forallb existsb] in *. apply andb_true_iff in H. destruct H as [Hc Ht].
  rewrite (IH Ht), orb_false_r. apply N.eqb_neq. intros <-.
  vm_compute in Hc. discriminate.
Qed.

Lemma no_slash_app (a b : str) :
  no_slash a = true -> no_slash b = true -> no_slash (a ++ b) = true.
Proof.
  unfold no_slash. intros Ha Hb. apply negb_true_iff in Ha, Hb.
  rewrite existsb_app. apply negb_true_iff, orb_false_iff. split; assumption.
Qed.

Lemma new_name_no_slash (url : str) (p : Path) :
  no_slash (new_name url p) = true.
Proof.
  unfold new_name. apply no_slash_app.
  - apply clean_no_slash, sanitize_filename_clean.
  - apply suffix_no_slash.
Qed.

(** The suffix of a name made of a base that is not empty and of a suffix. *)
Lemma suffix_of_based (d : Path) (base rest : str) :
  no_slash base = true -> no_slash rest = true ->
  base <> [] -> rest <> [] -> existsb (N.eqb dot) rest = false ->
  suffix (joinpath d (base ++ dot :: rest)) = dot :: rest.
Proof.
  intros Hb Hr Hbase Hrest Hdot. unfold suffix.
  rewrite name_joinpath.
  - rewrite (rfind_last dot base rest Hdot).
    assert (Hc : ((0 <? length base)%nat
                  && (length base <? length (base ++ dot :: rest) - 1)%nat) = true).
    { apply andb_true_iff. split; apply Nat.ltb_lt.
      - destruct base; [congruence | simpl; lia].
      - rewrite length_app. destruct rest; [congruence | simpl; lia]. }
    rewrite Hc, skipn_app, skipn_all, Nat.sub_diag. reflexivity.
  - apply no_slash_app; [exact Hb|].
    unfold no_slash in *. cbn [existsb]. apply negb_true_iff in Hr.
    rewrite Hr. reflexivity.
Qed.

Lemma destination_name_suffix (env : Env) (t : Q) (src : Path) :
  suffix src <> [] ->
  name (destination env t src)
    = sanitize_filename (get_safari_url env t) ++ suffix src
  /\ suffix (destination env t src) = suffix src.
Proof.
  intros Hs. unfold destination. split.
  - apply name_joinpath, new_name_no_slash.
  - destruct (suffix_shape src Hs) as [rest [Hsuf [Hrest Hdot]]].
    unfold new_name. rewrite Hsuf. apply suffix_of_based.
    + apply clean_no_slash, sanitize_filename_clean.
    + pose proof (suffix_no_slash src) as H. rewrite Hsuf in H.
      unfold no_slash in *. cbn [existsb] in H.
      apply negb_true_iff in H. apply orb_false_iff in H.
      apply negb_true_iff. tauto.
    + pose proof (sanitize_filename_length_pos (get_safari_url env t)) as H.
      destruct (sanitize_filename _); [inversion H | discriminate].
    + exact Hrest.
    + exact Hdot.
Qed.

(** X5: the file keeps its extension.  When the resolved file has a suffix,
    the destination is named by the sanitized context followed by that suffix,
    and its suffix is the one of the file. *)
Theorem destination_keeps_suffix (env : Env) (t : Q) (src : Path) :
  suffix src <> [] ->
  name (destination env t src)
    = sanitize_filename (get_safari_url env t) ++ suffix src
  /\ suffix (destination env t src) = suffix src.
Proof. apply destination_name_suffix. Qed.

Lemma destination_keeps_suffix_witness :
  name (destination (world report report_download 2 (lit "https://a.b/c") None)
          4 report)
    = sanitize_filename
        (get_safari_url (world report report_download 2 (lit "https://a.b/c") None) 4)
      ++ suffix report
  /\ suffix (destination (world report report_download 2 (lit "https://a.b/c") None)
               4 report)
     = suffix report.
Proof.
  apply (@destination_keeps_suffix
           (world report report_download 2 (lit "https://a.b/c") None) 4 report).
  vm_compute. discriminate.
Defined.

(** X6: a file without a suffix takes one from the context: the suffix of
    its destination is the suffix the sanitized context has as a name. *)
Theorem destination_borrows_suffix (env : Env) (t : Q) (src : Path) :
  suffix src = [] ->
  suffix (destination env t src)
  = suffix (sanitize_filename (get_safari_url env t)).
Proof.
  intros Hs. unfold destination, new_name. rewrite Hs, app_nil_r.
  assert (Hn : no_slash (sanitize_filename (get_safari_url env t)) = true)
    by apply clean_no_slash, sanitize_filename_clean.
  unfold suffix at 1. rewrite (name_joinpath _ _ Hn).
  unfold suffix, name. unfold no_slash in Hn. apply negb_true_iff in Hn.
  apply rfind_none in Hn. rewrite Hn. reflexivity.
Qed.

Lemma destination_borrows_suffix_witness :
  suffix (destination
            (world (lit "/Users/me/Downloads/README") [] 0
               (lit "https://example.com") None)
            2 (lit "/Users/me/Downloads/README"))
  = suffix (sanitize_filename
              (get_safari_url
                 (world (lit "/Users/me/Downloads/README") [] 0
                    (lit "https://example.com") None) 2)).
Proof.
  apply (@destination_borrows_suffix
           (world (lit "/Users/me/Downloads/README") [] 0
              (lit "https://example.com") None)
           2 (lit "/Users/me/Downloads/README")).
  vm_compute. reflexivity.
Defined.

Example ex_borrowed_suffix :
  suffix (destination
            (world (lit "/Users/me/Downloads/README") [] 0
               (lit "https://example.com") None)
            2 (lit "/Users/me/Downloads/README"))
  = lit ".com".
Proof. vm_compute. reflexivity. Qed.

(** ** The context fetcher: [get_safari_url] *)

Lemma lstrip_blank_app (pre s : str) :
  blank pre = true -> lstrip (pre ++ s) = lstrip s.
Proof.
  unfold blank. induction pre as [|c pre IH]; intros H; [reflexivity|].
  cbn [forallb] in H. apply andb_true_iff in H. destruct H as [Hc Hp].
  cbn [app lstrip]. rewrite Hc. apply IH, Hp.
Qed.

Lemma lstrip_fixed (s : str) : starts_with_space s = false -> lstrip s = s.
Proof. destruct s as [|c t]; cbn [starts_with_space lstrip]; [|intros ->]; reflexivity. Qed.

Lemma lstrip_head (s : str) : starts_with_space (lstrip s) = false.
Proof.
  induction s as [|c t IH]; [reflexivity|]. cbn [lstrip].
  destruct (isspace c) eqn:E; [exact IH|]. exact E.
Qed.

Lemma lstrip_split (s : str) :
  exists pre, s = pre ++ lstrip s /\ blank pre = true.
Proof.
  induction s as [|c t IH]; [exists []; auto|]. cbn [lstrip].
  destruct (isspace c) eqn:E.
  - destruct IH as [pre [Hs Hb]]. exists (c :: pre). split.
    + cbn [app]. f_equal. exact Hs.
    + unfold blank in *. cbn [forallb]. rewrite E, Hb. reflexivity.
  - exists []. auto.
Qed.

Lemma blank_rev (s : str) : blank s = true -> blank (rev s) = true.
Proof.
  unfold blank. intros H. apply forallb_forall. intros x Hx.
  apply in_rev in Hx. revert x Hx. apply forallb_forall, H.
Qed.

(** What [strip] keeps of a string made of white space, a core that neither
    starts nor ends with white space, and white space again. *)
Lemma strip_core (pre core post : str) :
  blank pre = true -> blank post = true ->
  starts_with_space core = false -> starts_with_space (rev core) = false ->
  strip (pre ++ core ++ post) = core.
Proof.
  intros Hpre Hpost Hh Hl. unfold strip. rewrite (@lstrip_blank_app pre _ Hpre).
  destruct core as [|c core].
  - cbn [app]. rewrite <- (app_nil_r post), (@lstrip_blank_app post _ Hpost).
    reflexivity.
  - rewrite (lstrip_fixed ((c :: core) ++ post))
      by (cbn [app starts_with_space] in *; exact Hh).
    rewrite rev_app_distr, (@lstrip_blank_app (rev post) _ (@blank_rev post Hpost)).
    rewrite (@lstrip_fixed (rev (c :: core)) Hl). apply rev_involutive.
Qed.

Lemma strip_ends (s : str) :
  starts_with_space (strip s) = false
  /\ starts_with_space (rev (strip s)) = false.
Proof.
  unfold strip. rewrite rev_involutive. split; [|apply lstrip_head].
  destruct (lstrip_split (rev (lstrip s))) as [pre [Hs Hb]].
  pose proof (lstrip_head s) as Hh.
  destruct (lstrip (rev (lstrip s))) as [|x l] using rev_ind; [reflexivity|].
  clear IHl. rewrite rev_app_distr. cbn [rev app starts_with_space].
  apply (f_equal (@rev char)) in Hs.
  rewrite rev_involutive, app_assoc, rev_app_distr in Hs.
  cbn [rev app] in Hs. rewrite Hs in Hh. exact Hh.
Qed.

(** X7: [get_safari_url] gives the context without the white space around
    it.  Its result neither starts nor ends with white space; an output of
    white space only (no document open) gives the empty string; and the
    output of a clean address followed by a line feed gives the address. *)
Theorem get_safari_url_stripped (env : Env) (t : Q) :
  (starts_with_space (get_safari_url env t) = false
   /\ starts_with_space (rev (get_safari_url env t)) = false)
  /\ (blank (osascript_stdout env t) = true -> get_safari_url env t = [])
  /\ (forall url : str,
        starts_with_space url = false -> starts_with_space (rev url) = false ->
        osascript_stdout env t = url ++ [10%N] ->
        get_safari_url env t = url).
Proof.
  unfold get_safari_url. split; [apply strip_ends|]. split.
  - intros Hb.
    rewrite <- (app_nil_r (osascript_stdout env t)).
    apply (@strip_core (osascript_stdout env t) [] []); auto.
  - intros url Hh Hl ->.
    apply (@strip_core [] url [10%N]); auto.
Qed.

Lemma get_safari_url_stripped_witness :
  get_safari_url (world photo [] 0 [] None) 2 = []
  /\ get_safari_url (world photo [] 0 (lit "https://example.com") None) 2
     = lit "https://example.com".
Proof.
  split.
  - apply (proj1 (proj2 (@get_safari_url_stripped (world photo [] 0 [] None) 2))).
    vm_compute. reflexivity.
  - apply (proj2 (proj2 (@get_safari_url_stripped
                           (world photo [] 0 (lit "https://example.com") None) 2))).
    + vm_compute; reflexivity.
    + vm_compute; reflexivity.
    + reflexivity.
Defined.

(** ** Further properties of the event handler *)

Lemma wait_clock (fuel : nat) (env : Env) (path : Path) (timeout : Z)
    (st : State) (p : Path) (st' : State) :
  sleeps_enough env ->
  wait_for_download_complete fuel env path timeout st = Some (p, st') ->
  now st <= now st'.
Proof.
  intros Hsleep. unfold wait_for_download_complete.
  destruct (negb (str_eqb (suffix path) marker)).
  - intros H. inversion H; subst. lra.
  - intros H.
    destruct (@poll_rounds fuel env path (final_path path) (now st) timeout
                0%nat (print (msg_waiting (name path)) st) p st'
                Hsleep eq_refl H) as [k [Hk _]].
    rewrite Hk. pose proof (@poll_time_ge env Hsleep (now st) k) as Hge.
    assert (H0 : 0 <= inject_Z (Z.of_nat k)).
    { change 0 with (inject_Z 0). rewrite <- Zle_Qle. lia. }
    lra.
Qed.


Lemma wait_done (fuel : nat) (env : Env) (path : Path) (timeout : Z)
    (st : State) (k : nat) :
  sleeps_enough env -> suffix path = marker ->
  poll_time env (now st) k - now st < inject_Z timeout ->
  download_done env (poll_time env (now st) k) path (final_path path) = true ->
  (timeout < Z.of_nat fuel)%Z ->
  exists st',
    wait_for_download_complete fuel env path timeout st
      = Some (final_path path, st')
    /\ moves st' = moves st.
Proof.
  intros Hsleep Hs Hk Hdone Hfuel. unfold wait_for_download_complete.
  apply str_eqb_eq in Hs. rewrite Hs. cbn [negb].
  pose proof (@within_bound env Hsleep (now st) timeout k Hk) as Hkt.
  destruct (@poll_done env Hsleep path (final_path path) (now st) timeout
              k fuel 0%nat (print (msg_waiting (name path)) st))
    as [st' [Hp [_ Hmv]]]; try reflexivity; try assumption; try lia.
  exists st'. split; assumption.
Qed.

(** What follows the resolver in [process_event]. *)
Lemma process_event_after_wait (fuel : nat) (env : Env) (path : Path)
    (st : State) (p : Path) (st1 : State) :
  exists_at env (now st) path = true ->
  wait_for_download_complete fuel env path DEFAULT_TIMEOUT
    (print (msg_detected (name path)) st) = Some (p, st1) ->
  exists o st',
    process_event fuel env path st = Some (o, st')
    /\ now st' = wake env (now st1) WAIT_TIME
    /\ moves st' = moves st ++ [(p, destination env (now st') p)]
    /\ (forall line, In line (stdout st1) -> In line (stdout st')).
Proof.
  intros Hex Hw. unfold process_event. rewrite Hex. cbn [negb]. rewrite Hw.
  pose proof (wait_moves _ _ _ _ _ Hw) as Hmv. cbn [print moves] in Hmv.
  cbn [record_move sleep now].
  destruct (shutil_move env (wake env (now st1) WAIT_TIME) p _) as [[e|e]|];
    eexists; eexists; (split; [reflexivity|]);
    cbn [print record_move sleep now moves stdout]; rewrite Hmv;
    repeat split; auto; intros line Hl; apply in_or_app; auto.
Qed.

Lemma process_event_inv (fuel : nat) (env : Env) (path : Path) (st : State)
    (o : Outcome) (st' : State) :
  process_event fuel env path st = Some (o, st') ->
  (exists_at env (now st) path = false /\ o = Returned /\ st' = st)
  \/ (exists_at env (now st) path = true
      /\ exists p st1,
           wait_for_download_complete fuel env path DEFAULT_TIMEOUT
             (print (msg_detected (name path)) st) = Some (p, st1)
           /\ now st' = wake env (now st1) WAIT_TIME
           /\ moves st' = moves st ++ [(p, destination env (now st') p)]).
Proof.
  intros H. destruct (exists_at env (now st) path) eqn:Hex.
  - right. split; [reflexivity|].
    destruct (wait_for_download_complete fuel env path DEFAULT_TIMEOUT
                (print (msg_detected (name path)) st)) as [[p st1]|] eqn:Hw.
    + destruct (@process_event_after_wait fuel env path st p st1 Hex Hw)
        as [o2 [st2 [Hp [Hn [Hm _]]]]].
      rewrite Hp in H. inversion H; subst. exists p, st1. auto.
    + unfold process_event in H. rewrite Hex in H. cbn [negb] in H.
      rewrite Hw in H. discriminate.
  - left. rewrite (process_event_absent _ _ _ _ Hex) in H.
    inversion H; subst. auto.
Qed.

Lemma wait_result_paths (fuel : nat) (env : Env) (path : Path) (timeout : Z)
    (st : State) (p : Path) (st' : State) :
  wait_for_download_complete fuel env path timeout st = Some (p, st') ->
  p = path \/ (suffix path = marker /\ p = final_path path).
Proof.
  unfold wait_for_download_complete.
  destruct (str_eqb (suffix path) marker) eqn:Es; cbn [negb].
  - apply str_eqb_eq in Es. intros H. apply poll_sound in H.
    destruct H as [[Hp _] | [Hp _]]; auto.
  - intros H. inversion H; subst. auto.
Qed.

Lemma process_event_moves (fuel : nat) (env : Env) (path : Path) (st : State)
    (o : Outcome) (st' : State) :
  process_event fuel env path st = Some (o, st') -> moves_once env path st st'.
Proof.
  intros H. apply process_event_inv in H.
  destruct H as [[_ [_ H]] | [Hex [p [st1 [Hw [_ Hm]]]]]]; [left; exact H|].
  right. split; [exact Hex|]. exists p. split; [|exact Hm].
  apply wait_result_paths in Hw. exact Hw.
Qed.

(** X8: an event moves at most one file, once.  A call of [process_event],
    [on_created] or [on_moved] that returns has changed nothing (the event is
    for a directory or for a path that is gone), or has called [shutil.move]
    exactly once, for the path of the event or for its final path, towards the
    destination directory. *)
Theorem event_moves_once (fuel : nat) (env : Env) (st : State)
    (o : Outcome) (st' : State) :
  (forall path,
      process_event fuel env path st = Some (o, st') ->
      moves_once env path st st')
  /\ (forall event,
      on_created fuel env event st = Some (o, st') ->
      moves_once env (src_path event) st st')
  /\ (forall event,
      on_moved fuel env event st = Some (o, st') ->
      moves_once env (dest_path event) st st').
Proof.
  split; [|split].
  - intros path. apply process_event_moves.
  - intros event. unfold on_created. destruct (is_directory event).
    + intros H. inversion H; subst. left. reflexivity.
    + apply process_event_moves.
  - intros event. unfold on_moved. destruct (is_directory event).
    + intros H. inversion H; subst. left. reflexivity.
    + apply process_event_moves.
Qed.

Lemma event_moves_once_witness :
  moves_once (world photo [] 0 [] None) photo st0
    {| now := 2;
       stdout := [msg_detected (lit "photo.jpg");
                  msg_renamed (lit "unknown_source.jpg")];
       moves := [(photo,
                  lit "/Users/me/Downloads/safari_renamed/unknown_source.jpg")] |}.
Proof.
  apply (proj1 (@event_moves_once 0 (world photo [] 0 [] None) st0 Returned
                  {| now := 2;
                     stdout := [msg_detected (lit "photo.jpg");
                                msg_renamed (lit "unknown_source.jpg")];
                     moves := [(photo,
                                lit "/Users/me/Downloads/safari_renamed/unknown_source.jpg")] |})
           photo).
  vm_compute. reflexivity.
Defined.

(** X9: the context is read, and the file moved, at least [WAIT_TIME]
    seconds after the event: a handler that does something returns two
    seconds later or more. *)
Theorem process_event_takes_wait_time (fuel : nat) (env : Env) (path : Path)
    (st : State) (o : Outcome) (st' : State) :
  sleeps_enough env ->
  exists_at env (now st) path = true ->
  process_event fuel env path st = Some (o, st') ->
  now st + WAIT_TIME <= now st'.
Proof.
  intros Hsleep Hex H. apply process_event_inv in H.
  destruct H as [[Hno _] | [_ [p [st1 [Hw [Hn _]]]]]]; [congruence|].
  apply (wait_clock _ _ _ _ Hsleep) in Hw. cbn [print now] in Hw.
  rewrite Hn. pose proof (Hsleep (now st1) WAIT_TIME) as Hs. lra.
Qed.

Lemma process_event_takes_wait_time_witness :
  now st0 + WAIT_TIME
  <= now {| now := 2;
            stdout := [msg_detected (lit "photo.jpg");
                       msg_renamed (lit "unknown_source.jpg")];
            moves := [(photo,
                       lit "/Users/me/Downloads/safari_renamed/unknown_source.jpg")] |}.
Proof.
  apply (@process_event_takes_wait_time 0 (world photo [] 0 [] None) photo st0
           Returned).
  - apply sample_sleeps_enough.
  - vm_compute; reflexivity.
  - vm_compute; reflexivity.
Defined.

(** X10: with no context the file is named [unknown_source].  When a file
    without the marker is handled and the output of osascript, read after the
    wait, is white space only, the one move of the event goes to
    [unknown_source] followed by the suffix of the file, in the destination
    directory. *)
Theorem process_event_blank_context (fuel : nat) (env : Env) (path : Path)
    (st : State) :
  exists_at env (now st) path = true ->
  suffix path <> marker ->
  blank (osascript_stdout env (wake env (now st) WAIT_TIME)) = true ->
  exists o st',
    process_event fuel env path st = Some (o, st')
    /\ moves st' = moves st ++
         [(path, joinpath (DEST_DIR env) (lit "unknown_source" ++ suffix path))].
Proof.
  intros Hex Hs Hb.
  assert (Hw : wait_for_download_complete fuel env path DEFAULT_TIMEOUT
                 (print (msg_detected (name path)) st)
               = Some (path, print (msg_detected (name path)) st)).
  { unfold wait_for_download_complete. apply str_eqb_neq in Hs.
    rewrite Hs. reflexivity. }
  destruct (@process_event_after_wait fuel env path st path _ Hex Hw)
    as [o [st' [Hp [Hn [Hm _]]]]].
  exists o, st'. split; [exact Hp|]. rewrite Hm. cbn [print now] in Hn.
  assert (Hstrip : strip (osascript_stdout env (wake env (now st) WAIT_TIME)) = []).
  { rewrite <- (app_nil_r (osascript_stdout _ _)).
    apply (@strip_core (osascript_stdout env (wake env (now st) WAIT_TIME)) [] []);
      auto. }
  unfold destination, new_name, get_safari_url. rewrite Hn, Hstrip. reflexivity.
Qed.

Lemma process_event_blank_context_witness :
  exists o st',
    process_event 0 (world photo [] 0 [] None) photo st0 = Some (o, st')
    /\ moves st' = moves st0 ++
         [(photo, joinpath (DEST_DIR (world photo [] 0 [] None))
                    (lit "unknown_source" ++ suffix photo))].
Proof.
  apply (@process_event_blank_context 0 (world photo [] 0 [] None) photo st0).
  - vm_compute; reflexivity.
  - vm_compute; discriminate.
  - vm_compute; reflexivity.
Defined.



(** X12: a download that ends is moved under its final path.  When a round
    of the resolver, within the timeout, finds the marker gone and the final
    file there, the one move of the event is the move of the final path, not
    of the marker path. *)
Theorem process_event_moves_final (fuel : nat) (env : Env) (path : Path)
    (st : State) (k : nat) :
  sleeps_enough env ->
  exists_at env (now st) path = true ->
  suffix path = marker ->
  poll_time env (now st) k - now st < inject_Z DEFAULT_TIMEOUT ->
  exists_at env (poll_time env (now st) k) path = false ->
  exists_at env (poll_time env (now st) k) (final_path path) = true ->
  (60 < fuel)%nat ->
  exists o st',
    process_event fuel env path st = Some (o, st')
    /\ moves st' = moves st ++
         [(final_path path, destination env (now st') (final_path path))]
    /\ final_path path <> path.
Proof.
  intros Hsleep Hex Hs Hk Hgone Hthere Hfuel.
  destruct (@wait_done fuel env path DEFAULT_TIMEOUT
              (print (msg_detected (name path)) st) k Hsleep Hs)
    as [st1 [Hw _]].
  - exact Hk.
  - cbn [print now]. unfold download_done. rewrite Hgone, Hthere. reflexivity.
  - unfold DEFAULT_TIMEOUT. lia.
  - destruct (@process_event_after_wait fuel env path st (final_path path) st1
                Hex Hw) as [o [st' [Hp [_ [Hm _]]]]].
    exists o, st'. split; [exact Hp|]. split; [exact Hm|].
    intros Heq. pose proof (final_path_strips_marker path Hs) as Hx.
    rewrite Heq in Hx. apply (f_equal (@length char)) in Hx.
    rewrite length_app in Hx. change (length marker) with 9%nat in Hx. lia.
Qed.

Lemma process_event_moves_final_witness :
  exists o st',
    process_event 61 (world report report_download 2 [] None) report_download st0
      = Some (o, st')
    /\ moves st' = moves st0 ++
         [(final_path report_download,
           destination (world report report_download 2 [] None) (now st')
             (final_path report_download))]
    /\ final_path report_download <> report_download.
Proof.
  apply (@process_event_moves_final 61 (world report report_download 2 [] None)
           report_download st0 2).
  - apply sample_sleeps_enough.
  - vm_compute; reflexivity.
  - vm_compute; reflexivity.
  - vm_compute; reflexivity.
  - vm_compute; reflexivity.
  - vm_compute; reflexivity.
  - lia.
Defined.

Lemma process_event_base_exception_witness :
  option_map fst
    (process_event 0
       (world photo [] 0 [] (Some (BaseExc (lit "KeyboardInterrupt")))) photo st0)
  = Some (Propagated (BaseExc (lit "KeyboardInterrupt"))).
Proof.
  apply (@process_event_base_exception 0
           (world photo [] 0 [] (Some (BaseExc (lit "KeyboardInterrupt"))))
           photo st0 photo (print (msg_detected (name photo)) st0)
           (lit "KeyboardInterrupt")).
  - vm_compute; reflexivity.
  - vm_compute; reflexivity.
  - reflexivity.
Defined.


(** ** Further properties of the naming policy *)

Lemma reserved_as_slash_head (c1 c2 : char) :
  (if reserved c1 then slash else c1) = (if reserved c2 then slash else c2) ->
  reserved c1 = reserved c2 /\ (reserved c1 = false -> c1 = c2).
Proof.
  assert (Hs : reserved slash = true) by (vm_compute; reflexivity).
  destruct (reserved c1) eqn:E1, (reserved c2) eqn:E2; intros H.
  - split; [reflexivity | discriminate].
  - subst c2. congruence.
  - subst c1. congruence.
  - split; [reflexivity | intros _; exact H].
Qed.

Lemma re_sub_plus_same_shape (repl : str) (b : bool) (s1 s2 : str) :
  reserved_as_slash s1 = reserved_as_slash s2 ->
  re_sub_plus reserved_chars repl b s1 = re_sub_plus reserved_chars repl b s2.
Proof.
  revert b s2. induction s1 as [|c1 t1 IH]; intros b [|c2 t2] H;
    try discriminate; [reflexivity|].
  unfold reserved_as_slash in H. cbn [map] in H. inversion H as [[Hc Ht]].
  apply reserved_as_slash_head in Hc. destruct Hc as [Hr Hc].
  cbn [re_sub_plus]. fold (reserved c1). fold (reserved c2). rewrite <- Hr.
  destruct (reserved c1).
  - f_equal. apply IH, Ht.
  - rewrite (Hc eq_refl). f_equal. apply IH, Ht.
Qed.

(** X15: contexts that differ only in which reserved characters they use
    get the same name: the name depends on the input only through the places
    of its reserved characters and through its other characters. *)
Theorem sanitize_filename_collides (s1 s2 : str) :
  reserved_as_slash s1 = reserved_as_slash s2 ->
  sanitize_filename s1 = sanitize_filename s2.
Proof.
  intros H. destruct s1 as [|c1 t1], s2 as [|c2 t2]; try discriminate;
    [reflexivity|].
  rewrite !sanitize_filename_cons. unfold re_sub.
  rewrite (re_sub_plus_same_shape (lit "_") false _ _ H). reflexivity.
Qed.

Lemma sanitize_filename_collides_witness :
  sanitize_filename (lit "https://example.com/a?b")
  = sanitize_filename (lit "https:\\example.com|a*b").
Proof.
  apply sanitize_filename_collides. vm_compute. reflexivity.
Defined.

Lemma re_sub_plus_length (b : bool) (s : str) :
  (length (re_sub_plus reserved_chars (lit "_") b s) <= length s)%nat.
Proof.
  revert b. induction s as [|c t IH]; intros b; cbn [re_sub_plus length]; [lia|].
  destruct (in_class reserved_chars c).
  - rewrite length_app. specialize (IH true). destruct b; simpl; lia.
  - specialize (IH false). simpl. lia.
Qed.

Lemma re_sub_plus_kept (b : bool) (s : str) :
  filter not_underscore (re_sub_plus reserved_chars (lit "_") b s)
  = filter (fun c => negb (reserved c) && not_underscore c) s.
Proof.
  revert b. induction s as [|c t IH]; intros b; cbn [re_sub_plus filter];
    [reflexivity|].
  fold (reserved c). destruct (reserved c); cbn [negb andb].
  - rewrite filter_app, IH. destruct b; reflexivity.
  - cbn [filter]. rewrite IH. reflexivity.
Qed.

(** X16: the name of a context that is not empty is never longer than the
    context, and for a context of at most 200 characters the name is, its
    underscores apart, the context without its reserved characters and
    underscores: every other character is kept, in order, and nothing but
    underscores is added. *)
Theorem sanitize_filename_keeps (s : str) :
  s <> [] ->
  (length (sanitize_filename s) <= length s)%nat
  /\ ((length s <= MAX_LEN)%nat ->
      filter not_underscore (sanitize_filename s)
      = filter (fun c => negb (reserved c) && not_underscore c) s).
Proof.
  intros Hne. rewrite (sanitize_filename_nonempty Hne). unfold re_sub.
  pose proof (re_sub_plus_length false s) as Hlen. split.
  - rewrite length_firstn. lia.
  - intros Hs. rewrite firstn_all2 by lia. apply re_sub_plus_kept.
Qed.

Lemma sanitize_filename_keeps_witness :
  (length (sanitize_filename (lit "a_b://c")) <= length (lit "a_b://c"))%nat
  /\ ((length (lit "a_b://c") <= MAX_LEN)%nat ->
      filter not_underscore (sanitize_filename (lit "a_b://c"))
      = filter (fun c => negb (reserved c) && not_underscore c) (lit "a_b://c")).
Proof.
  apply (@sanitize_filename_keeps (lit "a_b://c")). discriminate.
Defined.

(** ** The screenshot renamer: [os.path.split] and [os.path.join] *)

Lemma startswith_cons (c : char) (s : str) :
  startswith [c] s = match s with x :: _ => N.eqb x c | [] => false end.
Proof.
  unfold startswith. destruct s as [|x t]; cbn [length firstn].
  - apply str_eqb_neq. discriminate.
  - destruct (N.eqb x c) eqn:E.
    + apply N.eqb_eq in E. subst x. apply str_eqb_eq. reflexivity.
    + apply str_eqb_neq. intros H. inversion H; subst.
      rewrite N.eqb_refl in E. discriminate.
Qed.

Lemma split_index_tail (p : str) :
  no_slash (skipn (match rfind slash p with Some j => S j | None => O end) p)
  = true.
Proof.
  unfold no_slash. apply negb_true_iff.
  destruct (rfind slash p) as [j|] eqn:E.
  - apply rfind_split in E. tauto.
  - apply rfind_none, E.
Qed.

Lemma split_tail_no_slash (p : str) : no_slash (snd (os_path_split p)) = true.
Proof. unfold os_path_split. cbn [snd]. apply split_index_tail. Qed.

Lemma drop_leading_sep_head (s : str) :
  match drop_leading_sep s with c :: _ => N.eqb c slash | [] => false end = false.
Proof.
  induction s as [|c t IH]; [reflexivity|]. cbn [drop_leading_sep].
  destruct (N.eqb c slash) eqn:E; [exact IH | exact E].
Qed.

Lemma rstrip_sep_end (s : str) : ends_with_sep (rstrip_sep s) = false.
Proof.
  unfold ends_with_sep, rstrip_sep. rewrite rev_involutive.
  apply drop_leading_sep_head.
Qed.

(** The head [os.path.split] gives is made of slashes only (it may be empty)
    or does not end with a slash. *)
Lemma split_head_shape (p : str) :
  all_sep (fst (os_path_split p)) = true
  \/ ends_with_sep (fst (os_path_split p)) = false.
Proof.
  unfold os_path_split. cbn [fst].
  set (head := firstn _ p).
  destruct (str_eqb head []) eqn:Ee; cbn [negb andb].
  - apply str_eqb_eq in Ee. rewrite Ee. left. reflexivity.
  - destruct (all_sep head) eqn:Ea; cbn [negb].
    + left. exact Ea.
    + right. apply rstrip_sep_end.
Qed.

Lemma all_sep_snoc (d : str) : all_sep (d ++ [slash]) = all_sep d.
Proof.
  unfold all_sep. rewrite forallb_app. cbn [forallb].
  rewrite N.eqb_refl. cbn [andb]. apply andb_true_r.
Qed.

Lemma ends_with_sep_false (d : str) :
  d <> [] -> ends_with_sep d = false -> all_sep d = false.
Proof.
  intros Hne. destruct d as [|x d] using rev_ind; [congruence|]. clear IHd.
  unfold ends_with_sep, all_sep. rewrite rev_app_distr, forallb_app.
  cbn [rev app forallb]. intros ->. cbn [andb]. apply andb_false_r.
Qed.

Lemma all_sep_end (d : str) :
  d <> [] -> all_sep d = true -> exists d', d = d' ++ [slash].
Proof.
  intros Hne. destruct d as [|x d] using rev_ind; [congruence|]. clear IHd.
  unfold all_sep. rewrite forallb_app. cbn [forallb]. intros H.
  apply andb_true_iff in H. destruct H as [_ H].
  apply andb_true_iff in H. destruct H as [H _].
  apply N.eqb_eq in H. subst x. exists d. reflexivity.
Qed.

Lemma firstn_length_app (a b : str) : firstn (length a) (a ++ b) = a.
Proof. induction a as [|x a IH]; simpl; [destruct b|rewrite IH]; reflexivity. Qed.

Lemma skipn_length_app (a b : str) : skipn (length a) (a ++ b) = b.
Proof. induction a as [|x a IH]; simpl; [reflexivity | exact IH]. Qed.

Lemma rfind_after_sep (d f : str) :
  existsb (N.eqb slash) f = false ->
  rfind slash ((d ++ [slash]) ++ f) = Some (length d)
  /\ S (length d) = length (d ++ [slash]).
Proof.
  intros Hf. split.
  - rewrite <- app_assoc. cbn [app]. apply rfind_last, Hf.
  - rewrite length_app. simpl. lia.
Qed.

(** Splitting what was joined gives the parts back, for a head of the shape
    [os.path.split] gives and a tail without a slash. *)
Lemma split_join (d f : str) :
  no_slash f = true ->
  all_sep d = true \/ ends_with_sep d = false ->
  os_path_split (os_path_join d f) = (d, f).
Proof.
  intros Hf Hd. unfold no_slash in Hf. apply negb_true_iff in Hf.
  assert (Hstart : startswith [slash] f = false).
  { rewrite startswith_cons. destruct f as [|x t]; [reflexivity|].
    cbn [existsb] in Hf. apply orb_false_iff in Hf.
    rewrite N.eqb_sym. tauto. }
  unfold os_path_join. rewrite Hstart.
  destruct (str_eqb d []) eqn:Hne'.
  - apply str_eqb_eq in Hne'. subst d. cbn [orb app]. unfold os_path_split.
    apply rfind_none in Hf. rewrite Hf. reflexivity.
  - assert (Hne : d <> []) by (apply str_eqb_neq; exact Hne').
    cbn [orb]. destruct (ends_with_sep d) eqn:Ee.
    + destruct Hd as [Ha | Hd]; [|discriminate].
      destruct (all_sep_end Hne Ha) as [d' Hd']. subst d.
      destruct (rfind_after_sep d' f Hf) as [Hi Hl].
      unfold os_path_split. rewrite Hi, Hl.
      rewrite firstn_length_app, skipn_length_app, Hne', Ha. reflexivity.
    + pose proof (ends_with_sep_false Hne Ee) as Ha.
      destruct (rfind_after_sep d f Hf) as [Hi Hl].
      replace (d ++ [slash] ++ f) with ((d ++ [slash]) ++ f)
        by (rewrite <- app_assoc; reflexivity).
      unfold os_path_split. rewrite Hi, Hl.
      rewrite firstn_length_app, skipn_length_app, all_sep_snoc, Ha.
      assert (Hn2 : str_eqb (d ++ [slash]) [] = false).
      { apply str_eqb_neq. destruct d; discriminate. }
      rewrite Hn2. cbn [negb andb]. f_equal.
      unfold rstrip_sep. rewrite rev_app_distr. cbn [rev app drop_leading_sep].
      rewrite N.eqb_refl. unfold ends_with_sep in Ee.
      destruct (rev d) as [|x r] eqn:Er.
      * apply (f_equal (@rev char)) in Er. rewrite rev_involutive in Er.
        simpl in Er. congruence.
      * cbn [drop_leading_sep]. rewrite Ee. rewrite <- Er. apply rev_involutive.
Qed.

(** ** The screenshot renamer: [normalize_screenshot_path] *)

(** The two replacements, character by character. *)
Lemma replace_spaces_map (f : str) :
  replace_char NBSP space (replace_char NNBSP space f)
  = map plain f.
Proof.
  unfold replace_char. rewrite map_map. apply map_ext. intros c.
  unfold plain, odd_space. destruct (N.eqb c NNBSP) eqn:E1; cbn [orb].
  - reflexivity.
  - destruct (N.eqb c NBSP); reflexivity.
Qed.

Lemma plain_char (c : char) :
  odd_space (plain c) = false
  /\ (N.eqb (plain c) dot = N.eqb c dot)
  /\ (N.eqb (plain c) slash = N.eqb c slash).
Proof.
  unfold plain. destruct (odd_space c) eqn:E.
  - unfold odd_space in E. apply orb_true_iff in E.
    destruct E as [E | E]; apply N.eqb_eq in E; subst c;
      repeat split; reflexivity.
  - auto.
Qed.

Lemma clean_filename_eq (f : str) :
  clean_filename f
  = match map plain f with
    | c :: t => if N.eqb c dot then t else c :: t
    | [] => []
    end.
Proof.
  unfold clean_filename. rewrite replace_spaces_map.
  change (lit ".") with [dot]. rewrite startswith_cons.
  destruct (map _ f) as [|c t]; [reflexivity|].
  destruct (N.eqb c dot); reflexivity.
Qed.

Lemma plain_no_odd_space (f : str) :
  existsb odd_space (map plain f) = false.
Proof.
  induction f as [|c t IH]; [reflexivity|]. cbn [map existsb].
  rewrite IH, (proj1 (plain_char c)). reflexivity.
Qed.

Lemma plain_no_slash (f : str) :
  no_slash f = true ->
  no_slash (map plain f) = true.
Proof.
  unfold no_slash. rewrite !negb_true_iff.
  induction f as [|c t IH]; [reflexivity|]. cbn [map existsb]. intros H.
  apply orb_false_iff in H. destruct H as [Hc Ht].
  rewrite (IH Ht), orb_false_r, N.eqb_sym.
  rewrite (proj2 (proj2 (plain_char c))), N.eqb_sym. exact Hc.
Qed.

Lemma clean_filename_no_odd_space (f : str) :
  existsb odd_space (clean_filename f) = false.
Proof.
  rewrite clean_filename_eq. pose proof (plain_no_odd_space f) as H.
  destruct (map _ f) as [|c t]; [reflexivity|].
  destruct (N.eqb c dot); [|exact H].
  cbn [existsb] in H. apply orb_false_iff in H. tauto.
Qed.

Lemma clean_filename_no_slash (f : str) :
  no_slash f = true -> no_slash (clean_filename f) = true.
Proof.
  intros Hf. rewrite clean_filename_eq. pose proof (plain_no_slash f Hf) as H.
  destruct (map _ f) as [|c t]; [reflexivity|].
  destruct (N.eqb c dot); [|exact H].
  unfold no_slash in *. cbn [existsb] in H. apply negb_true_iff in H.
  apply orb_false_iff in H. apply negb_true_iff. tauto.
Qed.

(** A file name without odd spaces and without a leading dot is clean. *)
Lemma clean_filename_fixed (f : str) :
  existsb odd_space f = false -> startswith (lit ".") f = false ->
  clean_filename f = f.
Proof.
  intros Ho Hd. rewrite clean_filename_eq.
  assert (Hm : map plain f = f).
  { clear Hd. induction f as [|c t IH]; [reflexivity|]. cbn [existsb map] in *.
    apply orb_false_iff in Ho. destruct Ho as [Hc Ht].
    unfold plain at 1. rewrite Hc, (IH Ht). reflexivity. }
  rewrite Hm. change (lit ".") with [dot] in Hd. rewrite startswith_cons in Hd.
  destruct f as [|c t]; [reflexivity|]. rewrite Hd. reflexivity.
Qed.

Lemma normalize_returns (os_rename : str -> str -> Renaming) (path : str)
    (st : Desk) (r : str) (st' : Desk) :
  normalize_screenshot_path os_rename path st = (Return r, st') ->
  r = clean_path path.
Proof.
  unfold normalize_screenshot_path, clean_path.
  destruct (os_path_split path) as [d f]. cbn [fst snd].
  destruct (negb (str_eqb (os_path_join d (clean_filename f)) path)).
  - destruct (os_rename path (os_path_join d (clean_filename f)));
      intros H; inversion H; reflexivity.
  - intros H. inversion H; reflexivity.
Qed.

Lemma split_clean_path (path : str) :
  os_path_split (clean_path path)
  = (fst (os_path_split path), clean_filename (snd (os_path_split path))).
Proof.
  unfold clean_path. apply split_join.
  - apply clean_filename_no_slash, split_tail_no_slash.
  - apply split_head_shape.
Qed.

(** X17: the file stays in its directory and loses its odd spaces.  The path
    [normalize_screenshot_path] returns splits into the directory of the path
    it was given and the cleaned file name, in which there is neither a narrow
    no-break space nor a no-break space. *)
Theorem normalize_keeps_directory (os_rename : str -> str -> Renaming)
    (path : str) (st : Desk) (r : str) (st' : Desk) :
  normalize_screenshot_path os_rename path st = (Return r, st') ->
  os_path_split r
    = (fst (os_path_split path), clean_filename (snd (os_path_split path)))
  /\ existsb odd_space (os_path_basename r) = false.
Proof.
  intros H. apply normalize_returns in H. subst r.
  pose proof (split_clean_path path) as Hs. split; [exact Hs|].
  change (os_path_basename (clean_path path))
    with (snd (os_path_split (clean_path path))).
  rewrite Hs. apply clean_filename_no_odd_space.
Qed.

Lemma normalize_keeps_directory_witness :
  os_path_split (lit "/Users/me/Desktop/Screenshot 1 AM.png")
    = (fst (os_path_split (lit "/Users/me/Desktop/.Screenshot 1" ++ [NNBSP]
                           ++ lit "AM.png")),
       clean_filename
         (snd (os_path_split (lit "/Users/me/Desktop/.Screenshot 1" ++ [NNBSP]
                              ++ lit "AM.png"))))
  /\ existsb odd_space
       (os_path_basename (lit "/Users/me/Desktop/Screenshot 1 AM.png")) = false.
Proof.
  apply (@normalize_keeps_directory (fun _ _ => FileNotFoundError)
           (lit "/Users/me/Desktop/.Screenshot 1" ++ [NNBSP] ++ lit "AM.png")
           {| printed := []; renamed := [] |}
           (lit "/Users/me/Desktop/Screenshot 1 AM.png")
           {| printed := [msg_disappeared];
              renamed := [(lit "/Users/me/Desktop/.Screenshot 1" ++ [NNBSP]
                           ++ lit "AM.png",
                           lit "/Users/me/Desktop/Screenshot 1 AM.png")] |}).
  vm_compute. reflexivity.
Defined.

(** X18: a clean path is left alone.  For a path made of a directory and of
    a file name without a slash, without odd spaces and without a leading dot,
    [normalize_screenshot_path] returns the path, renames nothing and prints
    nothing. *)
Theorem normalize_clean_path (os_rename : str -> str -> Renaming)
    (d f : str) (st : Desk) :
  all_sep d = true \/ ends_with_sep d = false ->
  no_slash f = true ->
  existsb odd_space f = false ->
  startswith (lit ".") f = false ->
  normalize_screenshot_path os_rename (os_path_join d f) st
  = (Return (os_path_join d f), st).
Proof.
  intros Hd Hf Ho Hdot. unfold normalize_screenshot_path.
  rewrite (split_join d f Hf Hd), (clean_filename_fixed f Ho Hdot).
  assert (He : str_eqb (os_path_join d f) (os_path_join d f) = true)
    by (apply str_eqb_eq; reflexivity).
  rewrite He. reflexivity.
Qed.

Lemma normalize_clean_path_witness :
  normalize_screenshot_path (fun _ _ => OtherError (lit "never called"))
    (os_path_join (lit "/Users/me/Desktop") (lit "Screenshot 1.png"))
    {| printed := []; renamed := [] |}
  = (Return (os_path_join (lit "/Users/me/Desktop") (lit "Screenshot 1.png")),
     {| printed := []; renamed := [] |}).
Proof.
  apply (@normalize_clean_path (fun _ _ => OtherError (lit "never called"))
           (lit "/Users/me/Desktop") (lit "Screenshot 1.png")
           {| printed := []; renamed := [] |}).
  - right. vm_compute. reflexivity.
  - vm_compute; reflexivity.
  - vm_compute; reflexivity.
  - vm_compute; reflexivity.
Defined.

Lemma normalize_fixed (os_rename : str -> str -> Renaming) (path : str)
    (st : Desk) :
  clean_path path = path ->
  normalize_screenshot_path os_rename path st = (Return path, st).
Proof.
  unfold normalize_screenshot_path, clean_path.
  destruct (os_path_split path) as [d f]. cbn [fst snd]. intros H.
  rewrite H. assert (He : str_eqb path path = true) by (apply str_eqb_eq; reflexivity).
  rewrite He. reflexivity.
Qed.

(** X19: what a failed rename does.  When the clean path differs from the
    path, [os.rename] is called once; if it raises [FileNotFoundError] the
    function prints the skipping line and still returns the clean path; any
    other exception of [os.rename] leaves the function. *)
Theorem normalize_rename_fails (os_rename : str -> str -> Renaming)
    (path : str) (st : Desk) :
  clean_path path <> path ->
  (os_rename path (clean_path path) = FileNotFoundError ->
   normalize_screenshot_path os_rename path st
   = (Return (clean_path path),
      {| printed := printed st ++ [msg_disappeared];
         renamed := renamed st ++ [(path, clean_path path)] |}))
  /\ (forall e, os_rename path (clean_path path) = OtherError e ->
      normalize_screenshot_path os_rename path st
      = (Raise e,
         {| printed := printed st;
            renamed := renamed st ++ [(path, clean_path path)] |})).
Proof.
  unfold normalize_screenshot_path, clean_path.
  destruct (os_path_split path) as [d f]. cbn [fst snd]. intros Hne.
  apply str_eqb_neq in Hne. rewrite Hne. cbn [negb].
  split; [intros -> | intros e ->]; reflexivity.
Qed.

Lemma normalize_rename_fails_witness :
  normalize_screenshot_path (fun _ _ => FileNotFoundError)
    (lit "/Users/me/Desktop/.Screenshot 1.png") {| printed := []; renamed := [] |}
  = (Return (clean_path (lit "/Users/me/Desktop/.Screenshot 1.png")),
     {| printed := [] ++ [msg_disappeared];
        renamed := [] ++ [(lit "/Users/me/Desktop/.Screenshot 1.png",
                           clean_path (lit "/Users/me/Desktop/.Screenshot 1.png"))] |}).
Proof.
  apply (proj1 (@normalize_rename_fails (fun _ _ => FileNotFoundError)
                  (lit "/Users/me/Desktop/.Screenshot 1.png")
                  {| printed := []; renamed := [] |}
                  ltac:(vm_compute; discriminate))).
  reflexivity.
Defined.

Lemma clean_filename_no_dot (f : str) :
  startswith (lit "..") f = false ->
  startswith (lit ".") (clean_filename f) = false.
Proof.
  intros H. rewrite clean_filename_eq. change (lit ".") with [dot].
  destruct f as [|c t]; [reflexivity|]. cbn [map].
  destruct (N.eqb (plain c) dot) eqn:Ec.
  - rewrite startswith_cons. destruct t as [|c2 t2]; [reflexivity|].
    cbn [map]. rewrite (proj1 (proj2 (plain_char c2))).
    rewrite (proj1 (proj2 (plain_char c))) in Ec. apply N.eqb_eq in Ec. subst c.
    destruct (N.eqb c2 dot) eqn:E2; [|reflexivity].
    apply N.eqb_eq in E2. subst c2. revert H. vm_compute. discriminate.
  - rewrite startswith_cons. exact Ec.
Qed.

Lemma clean_path_idempotent (path : str) :
  startswith (lit "..") (snd (os_path_split path)) = false ->
  clean_path (clean_path path) = clean_path path.
Proof.
  intros H. unfold clean_path at 1. rewrite split_clean_path. cbn [fst snd].
  rewrite clean_filename_fixed.
  - reflexivity.
  - apply clean_filename_no_odd_space.
  - apply clean_filename_no_dot, H.
Qed.

(** X20: normalizing once is enough, two leading dots apart.  When the file
    name does not start with two dots, a second call of
    [normalize_screenshot_path], on the path the first call returned, returns
    that path again and renames nothing. *)
Theorem normalize_twice (os_rename os_rename' : str -> str -> Renaming)
    (path : str) (st : Desk) (r : str) (st' : Desk) :
  startswith (lit "..") (snd (os_path_split path)) = false ->
  normalize_screenshot_path os_rename path st = (Return r, st') ->
  normalize_screenshot_path os_rename' r st' = (Return r, st').
Proof.
  intros Hd H. apply normalize_returns in H. subst r.
  apply normalize_fixed, clean_path_idempotent, Hd.
Qed.

Lemma normalize_twice_witness :
  normalize_screenshot_path (fun _ _ => OtherError (lit "never called"))
    (lit "/Users/me/Desktop/Screenshot 1.png")
    {| printed := [msg_normalized (lit "Screenshot 1.png")];
       renamed := [(lit "/Users/me/Desktop/.Screenshot" ++ [NBSP] ++ lit "1.png",
                    lit "/Users/me/Desktop/Screenshot 1.png")] |}
  = (Return (lit "/Users/me/Desktop/Screenshot 1.png"),
     {| printed := [msg_normalized (lit "Screenshot 1.png")];
        renamed := [(lit "/Users/me/Desktop/.Screenshot" ++ [NBSP] ++ lit "1.png",
                     lit "/Users/me/Desktop/Screenshot 1.png")] |}).
Proof.
  apply (@normalize_twice (fun _ _ => RenameDone)
           (fun _ _ => OtherError (lit "never called"))
           (lit "/Users/me/Desktop/.Screenshot" ++ [NBSP] ++ lit "1.png")
           {| printed := []; renamed := [] |}).
  - vm_compute; reflexivity.
  - vm_compute; reflexivity.
Defined.

Example ex_two_dots :
  clean_path (lit "/Users/me/Desktop/..Screenshot.png")
    = lit "/Users/me/Desktop/.Screenshot.png"
  /\ clean_path (lit "/Users/me/Desktop/.Screenshot.png")
    = lit "/Users/me/Desktop/Screenshot.png".
Proof. vm_compute. split; reflexivity. Qed.

(** ** The screenshot renamer: [extract_largest_text] *)

Lemma strip_idempotent (s : str) : strip (strip s) = strip s.
Proof.
  destruct (strip_ends s) as [Hh Hl].
  pose proof (@strip_core [] (strip s) [] eq_refl eq_refl Hh Hl) as H.
  cbn [app] in H. rewrite app_nil_r in H. exact H.
Qed.

(** What the loop has found when it ends: a bound of the heights of the
    texts that are not blank, and either nothing new, or the first text of the
    greatest height, greater than the height it started with. *)
Lemma largest_loop_spec (texts : list str) :
  forall (i : nat) (heights : list Z) (m : Z) (cur : option str)
         (m' : Z) (r : option str),
  largest_loop i texts heights m cur = Some (m', r) ->
  (forall j raw h,
      nth_error texts j = Some raw -> strip raw <> [] ->
      nth_error heights (i + j) = Some h -> (h <= m')%Z)
  /\ ((r = cur /\ m' = m)
      \/ exists j raw,
           nth_error texts j = Some raw /\ r = Some (strip raw)
           /\ strip raw <> [] /\ nth_error heights (i + j) = Some m'
           /\ (m < m')%Z
           /\ forall j' raw' h',
                (j' < j)%nat -> nth_error texts j' = Some raw' ->
                strip raw' <> [] -> nth_error heights (i + j') = Some h' ->
                (h' < m')%Z).
Proof.
  induction texts as [|text rest IH]; intros i heights m cur m' r H.
  - cbn [largest_loop] in H. inversion H; subst. split.
    + intros [|j] raw h Hn; discriminate.
    + left. auto.
  - cbn [largest_loop] in H. destruct (strip text) as [|c t0] eqn:Es.
    + apply IH in H. destruct H as [Hall Hr]. split.
      * intros [|j] raw h Hn Hs Hh; cbn [nth_error] in Hn.
        -- inversion Hn; subst. congruence.
        -- apply (Hall j raw h Hn Hs). rewrite <- Hh. f_equal. lia.
      * destruct Hr as [Hr | [j [raw [Hn [Hrr [Hs [Hh [Hlt Hbefore]]]]]]]];
          [left; exact Hr|].
        right. exists (S j), raw. cbn [nth_error].
        repeat split; try assumption.
        -- rewrite <- Hh. f_equal. lia.
        -- intros [|j'] raw' h' Hj Hn' Hs' Hh'; cbn [nth_error] in Hn'.
           ++ inversion Hn'; subst. congruence.
           ++ apply (Hbefore j' raw' h'); try assumption; [lia|].
              rewrite <- Hh'. f_equal. lia.
    + destruct (nth_error heights i) as [height|] eqn:Eh; [|discriminate].
      destruct (m <? height)%Z eqn:Elt.
      * apply Z.ltb_lt in Elt. apply IH in H. destruct H as [Hall Hr].
        assert (Hhm : (height <= m')%Z).
        { destruct Hr as [[_ ->] | [j [raw [_ [_ [_ [_ [Hlt _]]]]]]]]; lia. }
        split.
        -- intros [|j] raw h Hn Hs Hh; cbn [nth_error] in Hn.
           ++ rewrite Nat.add_0_r in Hh. congruence.
           ++ apply (Hall j raw h Hn Hs). rewrite <- Hh. f_equal. lia.
        -- right.
           destruct Hr as [[Hr Hm] | [j [raw [Hn [Hrr [Hs [Hh [Hlt Hbefore]]]]]]]].
           ++ exists 0%nat, text. cbn [nth_error]. rewrite Nat.add_0_r, Es.
              subst. repeat split; auto; try congruence.
              intros j' raw' h' Hj. lia.
           ++ exists (S j), raw. cbn [nth_error].
              repeat split; try assumption; try lia.
              ** rewrite <- Hh. f_equal. lia.
              ** intros [|j'] raw' h' Hj Hn' Hs' Hh'; cbn [nth_error] in Hn'.
                 --- rewrite Nat.add_0_r in Hh'. assert (h' = height) by congruence.
                     lia.
                 --- apply (Hbefore j' raw' h'); try assumption; [lia|].
                     rewrite <- Hh'. f_equal. lia.
      * apply Z.ltb_ge in Elt. apply IH in H. destruct H as [Hall Hr].
        assert (Hmm : (m <= m')%Z).
        { destruct Hr as [[_ ->] | [j [raw [_ [_ [_ [_ [Hlt _]]]]]]]]; lia. }
        split.
        -- intros [|j] raw h Hn Hs Hh; cbn [nth_error] in Hn.
           ++ rewrite Nat.add_0_r in Hh. assert (h = height) by congruence. lia.
           ++ apply (Hall j raw h Hn Hs). rewrite <- Hh. f_equal. lia.
        -- destruct Hr as [Hr | [j [raw [Hn [Hrr [Hs [Hh [Hlt Hbefore]]]]]]]];
             [left; exact Hr|].
           right. exists (S j), raw. cbn [nth_error].
           repeat split; try assumption.
           ++ rewrite <- Hh. f_equal. lia.
           ++ intros [|j'] raw' h' Hj Hn' Hs' Hh'; cbn [nth_error] in Hn'.
              ** rewrite Nat.add_0_r in Hh'. assert (h' = height) by congruence.
                 lia.
              ** apply (Hbefore j' raw' h'); try assumption; [lia|].
                 rewrite <- Hh'. f_equal. lia.
Qed.

(** Blank texts are passed over. *)
Lemma largest_loop_blank (texts : list str) (i : nat) (heights : list Z)
    (m : Z) (cur : option str) :
  forallb (fun raw => blank raw) texts = true ->
  largest_loop i texts heights m cur = Some (m, cur).
Proof.
  revert i. induction texts as [|text rest IH]; intros i H; [reflexivity|].
  cbn [forallb] in H. apply andb_true_iff in H. destruct H as [Hb Hr].
  cbn [largest_loop].
  assert (Hs : strip text = []).
  { rewrite <- (app_nil_r text). apply (@strip_core text [] []); auto. }
  rewrite Hs. apply IH, Hr.
Qed.

Lemma alnum_not_underscore (c : char) :
  is_alnum c = true -> N.eqb c underscore = false.
Proof.
  intros H. destruct (N.eqb c underscore) eqn:E; [|reflexivity].
  apply N.eqb_eq in E. subst c. vm_compute in H. discriminate.
Qed.

Section Underscored.

Let cls : char -> bool := fun c => negb (is_alnum c).

Lemma underscored_chars (b : bool) (s : str) :
  forallb (fun c => is_alnum c || N.eqb c underscore)
    (re_sub_where cls (lit "_") b s) = true.
Proof.
  revert b. induction s as [|c t IH]; intros b; [reflexivity|].
  cbn [re_sub_where]. change (cls c) with (negb (is_alnum c)).
  destruct (is_alnum c) eqn:E; cbn [negb].
  - cbn [forallb]. rewrite E, IH. reflexivity.
  - rewrite forallb_app, IH, andb_true_r. destruct b; reflexivity.
Qed.

Lemma underscored_adjacent (b : bool) (s : str) :
  no_adjacent_underscores (re_sub_where cls (lit "_") b s) = true
  /\ (b = true ->
      match re_sub_where cls (lit "_") b s with
      | c :: _ => N.eqb c underscore
      | [] => false
      end = false).
Proof.
  revert b. induction s as [|c t IH]; intros b; [split; reflexivity|].
  cbn [re_sub_where]. change (cls c) with (negb (is_alnum c)).
  destruct (is_alnum c) eqn:E; cbn [negb].
  - destruct (IH false) as [Hn _].
    pose proof (alnum_not_underscore c E) as Hc. split.
    + cbn [no_adjacent_underscores].
      destruct (re_sub_where cls (lit "_") false t); [reflexivity|].
      rewrite Hc, Hn. reflexivity.
    + intros _. exact Hc.
  - destruct (IH true) as [Hn Hh]. specialize (Hh eq_refl).
    destruct b; cbn [app].
    + split; [exact Hn | intros _; exact Hh].
    + split; [|discriminate]. change (lit "_") with [underscore] in *.
      cbn [app no_adjacent_underscores].
      destruct (re_sub_where cls [underscore] true t); [reflexivity|].
      rewrite Hh, Hn, andb_false_r. reflexivity.
Qed.

Lemma underscored_not_empty (s : str) :
  s <> [] -> re_sub_where cls (lit "_") false s <> [].
Proof.
  destruct s as [|c t]; [congruence|]. intros _. cbn [re_sub_where].
  destruct (cls c); discriminate.
Qed.

End Underscored.

(** X21: the name read off a screenshot is safe.  When
    [extract_largest_text] returns a text, it is not empty, it is made of
    ASCII letters, digits and underscores only, no two underscores are
    neighbours, and nothing was printed. *)
Theorem extracted_name_safe (image_to_data : str -> Ocr) (image_path : str)
    (st : Desk) (n : str) (st' : Desk) :
  extract_largest_text image_to_data image_path st = (Some n, st') ->
  n <> []
  /\ forallb (fun c => is_alnum c || N.eqb c underscore) n = true
  /\ no_adjacent_underscores n = true
  /\ st' = st.
Proof.
  unfold extract_largest_text.
  destruct (image_to_data image_path) as [e | texts heights]; [discriminate|].
  destruct (largest_loop 0 texts heights 0 None) as [[m' [[|c t]|]]|] eqn:El;
    try discriminate.
  intros H. inversion H; subst. clear H.
  unfold non_alnum_to_underscore. split; [|split; [|split]].
  - apply underscored_not_empty.
    apply largest_loop_spec in El. destruct El as [_ [[Hr _] | [j [raw [_ [Hr _]]]]]];
      [discriminate|].
    inversion Hr as [Hct]. rewrite Hct, strip_idempotent, <- Hct. discriminate.
  - apply underscored_chars.
  - apply underscored_adjacent.
  - reflexivity.
Qed.

Lemma extracted_name_safe_witness :
  lit "Hello_World_" <> []
  /\ forallb (fun c => is_alnum c || N.eqb c underscore) (lit "Hello_World_") = true
  /\ no_adjacent_underscores (lit "Hello_World_") = true
  /\ {| printed := []; renamed := [] |} = {| printed := []; renamed := [] |}.
Proof.
  apply (@extracted_name_safe
           (fun _ => OcrDict [lit " "; lit "Hello, World! "; lit "big"; lit "x"]
                       [5; 10; 10; 3]%Z)
           (lit "/Users/me/Desktop/Screenshot 1.png")
           {| printed := []; renamed := [] |}).
  vm_compute. reflexivity.
Defined.

(** X22: the text picked is the first one of the greatest height.  When the
    OCR gives its data and [extract_largest_text] returns a name, the name is
    made from a text that is not blank, whose height is positive, at least the
    height of every text that is not blank and greater than the height of
    every such text before it; and when every text is blank the function
    returns [None] and prints nothing. *)
Theorem extract_picks_largest (image_to_data : str -> Ocr) (image_path : str)
    (st : Desk) (texts : list str) (heights : list Z) :
  image_to_data image_path = OcrDict texts heights ->
  (forall n st',
      extract_largest_text image_to_data image_path st = (Some n, st') ->
      exists j t h,
        entry texts heights j t h
        /\ n = non_alnum_to_underscore t
        /\ (0 < h)%Z
        /\ forall j' t' h',
             entry texts heights j' t' h' ->
             (h' <= h)%Z /\ ((j' < j)%nat -> (h' < h)%Z))
  /\ (forallb (fun raw => blank raw) texts = true ->
      extract_largest_text image_to_data image_path st = (None, st)).
Proof.
  intros Hd. unfold extract_largest_text. rewrite Hd. split.
  - intros n st'.
    destruct (largest_loop 0 texts heights 0 None) as [[m' [[|c t]|]]|] eqn:El;
      try discriminate.
    intros H. inversion H; subst. clear H.
    apply largest_loop_spec in El.
    destruct El as [Hall [[Hr _] | [j [raw [Hn [Hr [Hs [Hh [Hlt Hbefore]]]]]]]]];
      [discriminate|].
    inversion Hr as [Hct]. exists j, (strip raw), m'.
    split; [exists raw; auto|].
    split; [rewrite Hct, strip_idempotent; reflexivity|].
    split; [exact Hlt|].
    intros j' t' h' [raw' [Hn' [Hs' [Hne' Hh']]]]. subst t'. split.
    + apply (Hall j' raw' h' Hn' Hne' Hh').
    + intros Hj. apply (Hbefore j' raw' h' Hj Hn' Hne' Hh').
  - intros Hb. rewrite (largest_loop_blank texts 0 heights 0 None Hb).
    reflexivity.
Qed.

Lemma extract_picks_largest_witness :
  exists j t h,
    entry [lit " "; lit "Hello, World! "; lit "big"; lit "x"] [5; 10; 10; 3]%Z j t h
    /\ lit "Hello_World_" = non_alnum_to_underscore t
    /\ (0 < h)%Z
    /\ forall j' t' h',
         entry [lit " "; lit "Hello, World! "; lit "big"; lit "x"]
           [5; 10; 10; 3]%Z j' t' h' ->
         (h' <= h)%Z /\ ((j' < j)%nat -> (h' < h)%Z).
Proof.
  apply (proj1 (@extract_picks_largest
                  (fun _ => OcrDict [lit " "; lit "Hello, World! "; lit "big"; lit "x"]
                              [5; 10; 10; 3]%Z)
                  (lit "/Users/me/Desktop/Screenshot 1.png")
                  {| printed := []; renamed := [] |}
                  [lit " "; lit "Hello, World! "; lit "big"; lit "x"]
                  [5; 10; 10; 3]%Z eq_refl)
           (lit "Hello_World_") {| printed := []; renamed := [] |}).
  vm_compute. reflexivity.
Defined.
